(** * brdecode: the raster decoder of brlaser's print-file converter

    A shallow embedding of [src/brdecode.cc] and the properties of its
    wrapper parser, block framing and delta decompression.

    The C++ program keeps its state in globals ([in_file], [page], [line],
    [line_offset]) and in the locals of [read_page] that the block reader
    closure captures by reference.  The embedding threads one record
    through a state-and-exception monad; loops the source bounds only by
    the input ([do ... while], [while], the drain [for]) take fuel. *)

From Stdlib Require Import ZArith Lia.
From Stdlib Require Import Strings.Byte Strings.Ascii Strings.String.
From stdpp Require Import base tactics option list strings pretty.

Local Open Scope Z_scope.

(** ** Machine integers *)

(** [unsigned] and [int] are 32 bits wide, [size_t] 64 bits. *)
Definition u8 (z : Z) : Z := z mod 2 ^ 8.
Definition u16 (z : Z) : Z := z mod 2 ^ 16.
Definition u32 (z : Z) : Z := z mod 2 ^ 32.
Definition size_t (z : Z) : Z := z mod 2 ^ 64.

(** Conversion of a value to [int8_t] and to [int] (two's complement). *)
Definition int8 (z : Z) : Z :=
  let r := z mod 2 ^ 8 in if r <? 2 ^ 7 then r else r - 2 ^ 8.
Definition int32 (z : Z) : Z :=
  let r := z mod 2 ^ 32 in if r <? 2 ^ 31 then r else r - 2 ^ 32.

Definition MAX_LINE_SIZE : Z := 2000.

(** The value [getc] returns for one octet of the file. *)
Definition byte_val (b : byte) : Z := Z.of_N (Byte.to_N b).

(** ** Program state *)

(** The exception classes of the source. *)
Inductive exn : Type :=
| unsupported_compression (type : Z)
| read_past_block_end
| unexpected_eof
| line_overflow.

(** What the program leaves outside: the lines printed on [stderr] by
    [read_page] and the pages handed to [write_pnm]. *)
Inductive event : Type :=
| warn_unread (n : Z)           (* "WARNING: %d unread bytes in block",
                                   [n] the number as printed *)
| wrote_page (p : list (list Z)).

(** Globals of the source, then the locals of [read_page] ([in_raster],
    [number], [format]; the lambda [get_next_block_character] captures them
    by reference), then the trace of outputs. *)
Record state : Type := State {
  in_file : list byte;
  page : list (list Z);
  line : list Z;
  line_offset : Z;
  in_raster : bool;
  number : Z;
  format : Z;
  trace : list event
}.

Definition set_in_file v st :=
  State v (page st) (line st) (line_offset st) (in_raster st) (number st) (format st) (trace st).
Definition set_page v st :=
  State (in_file st) v (line st) (line_offset st) (in_raster st) (number st) (format st) (trace st).
Definition set_line v st :=
  State (in_file st) (page st) v (line_offset st) (in_raster st) (number st) (format st) (trace st).
Definition set_line_offset v st :=
  State (in_file st) (page st) (line st) v (in_raster st) (number st) (format st) (trace st).
Definition set_in_raster v st :=
  State (in_file st) (page st) (line st) (line_offset st) v (number st) (format st) (trace st).
Definition set_number v st :=
  State (in_file st) (page st) (line st) (line_offset st) (in_raster st) v (format st) (trace st).
Definition set_format v st :=
  State (in_file st) (page st) (line st) (line_offset st) (in_raster st) (number st) v (trace st).
Definition emit (e : event) st :=
  State (in_file st) (page st) (line st) (line_offset st) (in_raster st) (number st) (format st)
        (trace st ++ [e]).

(** ** The monad *)

(** A computation returns a value, or throws (the state at the throw is
    kept: what was printed before stays printed), or exhausts its fuel. *)
Inductive result (A : Type) : Type :=
| Ok (a : A) (st : state)
| Throw (e : exn) (st : state)
| OutOfFuel.
Arguments Ok {A} a st.
Arguments Throw {A} e st.
Arguments OutOfFuel {A}.

Definition M (A : Type) : Type := state → result A.

#[export] Instance M_ret : MRet M := λ A a st, Ok a st.
#[export] Instance M_bind : MBind M := λ A B f m st,
  match m st with
  | Ok a st' => f a st'
  | Throw e st' => Throw e st'
  | OutOfFuel => OutOfFuel
  end.

Definition throw {A} (e : exn) : M A := λ st, Throw e st.
Definition out_of_fuel {A} : M A := λ _, OutOfFuel.
Definition gets {A} (f : state → A) : M A := λ st, Ok (f st) st.
Definition modify (f : state → state) : M unit := λ st, Ok tt (f st).

(** [for (i = 0; i < n; ++i) body] *)
Fixpoint for_n (n : nat) (body : M unit) : M unit :=
  match n with
  | O => mret tt
  | S n' => body;; for_n n' body
  end.

(** ** Byte source *)

(** [getc(in_file)]: the next octet, or [EOF] (-1). *)
Definition getc : M Z := λ st,
  match in_file st with
  | [] => Ok (-1) st
  | b :: rest => Ok (byte_val b) (set_in_file rest st)
  end.

(** [get()], lines 71-76. *)
Definition get : M Z :=
  ch ← getc;
  if ch <? 0 then throw unexpected_eof else mret (u8 ch).

(** ** Raster decoder, lines 78-157 *)

Section Decoder.
(** The [std::function<uint8_t()>] every decoder function receives, and
    the fuel of the unbounded loop. *)
Variable next_character : M Z.
Variable fuel : nat.

(** [read_overflow], lines 78-86: the [do ... while (ch == 255)] loop with
    the running [sum]. *)
Fixpoint read_overflow_loop (n : nat) (sum : Z) : M Z :=
  match n with
  | O => out_of_fuel
  | S n' =>
      ch ← next_character;
      let sum := u32 (sum + ch) in
      if ch =? 255 then read_overflow_loop n' sum else mret sum
  end.

Definition read_overflow : M Z := read_overflow_loop fuel 0.

(** [offset += read_overflow(...)] on a [uint16_t]: the sum is taken in
    [unsigned] and converted back to 16 bits. *)
Definition add_overflow (field : Z) : M Z :=
  s ← read_overflow; mret (u16 (u32 (field + s))).

(** Lines 98-103 and 118-123 (the same text in both edit functions):
    compute [end], throw or resize. [resize] pads with zero octets. *)
Definition grow_line (offset count : Z) : M unit :=
  lo ← gets line_offset;
  l ← gets line;
  let end_ := size_t (size_t (lo + offset) + count) in
  if end_ >? Z.of_nat (length l) then
    if end_ >? MAX_LINE_SIZE then throw line_overflow
    else modify (set_line (resize (Z.to_nat end_) 0 l))
  else mret tt.

(** [line_offset += v] *)
Definition advance (v : Z) : M unit :=
  modify (λ st, set_line_offset (size_t (line_offset st + v)) st).

(** [std::fill_n(line.begin() + line_offset, count, data)].  The source
    has undefined behaviour if the range leaves the vector; stdpp's
    insert leaves the list alone there, and [grow_line] has made room. *)
Definition fill_n (count data : Z) : M unit :=
  modify (λ st,
    set_line (list_inserts (Z.to_nat (line_offset st))
                           (replicate (Z.to_nat count) data) (line st)) st).

(** [std::generate_n(line.begin() + line_offset, count, next_character)]:
    one call of the reader per octet, stored at once. *)
Fixpoint generate_n (i : nat) (count : nat) : M unit :=
  match count with
  | O => mret tt
  | S count' =>
      v ← next_character;
      modify (λ st, set_line (<[i := v]> (line st)) st);;
      generate_n (S i) count'
  end.

(** [read_repeat], lines 88-107. *)
Definition read_repeat (cmd : Z) : M unit :=
  let offset := u16 (Z.land (Z.shiftr cmd 5) 3) in
  offset ← (if offset =? 3 then add_overflow offset else mret offset);
  let count := u16 (Z.land cmd 31) in
  count ← (if count =? 31 then add_overflow count else mret count);
  let count := u16 (count + 2) in
  data ← next_character;
  grow_line offset count;;
  advance offset;;
  fill_n count data;;
  advance count.

(** [read_substitute], lines 109-127. *)
Definition read_substitute (cmd : Z) : M unit :=
  let offset := u16 (Z.land (Z.shiftr cmd 3) 15) in
  offset ← (if offset =? 15 then add_overflow offset else mret offset);
  let count := u16 (Z.land cmd 7) in
  count ← (if count =? 7 then add_overflow count else mret count);
  let count := u16 (count + 1) in
  grow_line offset count;;
  advance offset;;
  lo ← gets line_offset;
  generate_n (Z.to_nat lo) (Z.to_nat count);;
  advance count.

(** [read_edit], lines 129-136: [cmd] is an [int8_t], passed on as
    [uint8_t]. *)
Definition read_edit : M unit :=
  c ← next_character;
  let cmd := int8 c in
  if cmd <? 0 then read_repeat (u8 cmd) else read_substitute (u8 cmd).

(** [read_line], lines 138-149. *)
Definition read_line : M unit :=
  num_edits ← next_character;
  (if num_edits =? 255 then modify (set_line [])
   else modify (set_line_offset 0);; for_n (Z.to_nat num_edits) read_edit);;
  modify (λ st, set_page (page st ++ [line st]) st).

(** [read_block], lines 151-157. *)
Definition read_block : M unit :=
  c ← next_character;
  let count := u32 c in
  c ← next_character;
  let count := u32 (count * 256 + c) in
  for_n (Z.to_nat count) read_line.

(** *** The two halves of an edit

    Used to state properties only: the fields an edit reads (lines 89-96
    and 110-116), and what it then does to the line (lines 98-106 and
    118-126).  [read_repeat_split] and [read_substitute_split] show that
    the edit functions above are these halves in sequence. *)
Definition repeat_fields (cmd : Z) : M (Z * Z * Z) :=
  let offset := u16 (Z.land (Z.shiftr cmd 5) 3) in
  offset ← (if offset =? 3 then add_overflow offset else mret offset);
  let count := u16 (Z.land cmd 31) in
  count ← (if count =? 31 then add_overflow count else mret count);
  let count := u16 (count + 2) in
  data ← next_character;
  mret (offset, count, data).

Definition apply_repeat (offset count data : Z) : M unit :=
  grow_line offset count;;
  advance offset;;
  fill_n count data;;
  advance count.

Definition substitute_fields (cmd : Z) : M (Z * Z) :=
  let offset := u16 (Z.land (Z.shiftr cmd 3) 15) in
  offset ← (if offset =? 15 then add_overflow offset else mret offset);
  let count := u16 (Z.land cmd 7) in
  count ← (if count =? 7 then add_overflow count else mret count);
  let count := u16 (count + 1) in
  mret (offset, count).

Definition apply_substitute (offset count : Z) : M unit :=
  grow_line offset count;;
  advance offset;;
  lo ← gets line_offset;
  generate_n (Z.to_nat lo) (Z.to_nat count);;
  advance count.

(** Offset and count of the edit that starts at the reader's position. *)
Definition edit_fields : M (Z * Z) :=
  c ← next_character;
  let cmd := int8 c in
  if cmd <? 0 then
    '(offset, count, _) ← repeat_fields (u8 cmd); mret (offset, count)
  else substitute_fields (u8 cmd).

(** The range of octets [from, to) that edit writes: it skips [offset]
    octets from the cursor and writes [count]. *)
Definition edit_span (st : state) : option (Z * Z) :=
  match edit_fields st with
  | Ok (offset, count) _ =>
      Some (line_offset st + offset, line_offset st + offset + count)
  | _ => None
  end.

(** The written ranges of [n] edits in sequence. *)
Fixpoint edit_spans (n : nat) (st : state) : list (Z * Z) :=
  match n with
  | O => []
  | S n' =>
      match edit_span st, read_edit st with
      | Some sp, Ok _ st' => sp :: edit_spans n' st'
      | _, _ => []
      end
  end.
End Decoder.

(** Octet [i] lies in one of the ranges. *)
Definition covered (i : nat) (spans : list (Z * Z)) : bool :=
  existsb (λ sp, (sp.1 <=? Z.of_nat i) && (Z.of_nat i <? sp.2)) spans.

(** ** Wrapper parser, lines 159-216 *)

(** The lambda of lines 188-193. *)
Definition get_next_block_character : M Z :=
  n ← gets number;
  if n <=? 0 then throw read_past_block_end
  else modify (set_number (u32 (n - 1)));; get.

(** Lines 199-204: the warning, then the drain loop
    [for (; number > 0; number--) get();]. *)
Fixpoint drain (n : nat) : M unit :=
  match n with
  | O => out_of_fuel
  | S n' =>
      k ← gets number;
      if k >? 0 then get;; modify (set_number (u32 (k - 1)));; drain n'
      else mret tt
  end.

(** The branch of lines 186-205, taken on [w] and [W].  Line 200 prints
    the [unsigned] counter with [%d], that is, as an [int]. *)
Definition graphics_data (fuel : nat) : M unit :=
  f ← gets format;
  (if f =? 1030 then read_block get_next_block_character fuel
   else throw (unsupported_compression f));;
  k ← gets number;
  if k >? 0 then modify (emit (warn_unread (int32 k)));; drain fuel
  else mret tt.

Definition in_range (lo hi ch : Z) : bool := (lo <=? ch) && (ch <=? hi).

(** The body of the [while] loop for a byte other than form-feed,
    lines 170-213. *)
Definition read_page_char (fuel : nat) (ch : Z) : M unit :=
  if ch =? 27 then
    ch1 ← get;
    ch2 ← get;
    if (ch1 =? 42) && (ch2 =? 98) then
      modify (set_in_raster true);; modify (set_number 0)
    else mret tt
  else
    r ← gets in_raster;
    if r : bool then
      (if in_range 48 57 ch then
         let digit := u32 (ch - 48) in
         modify (λ st, set_number (u32 (number st * 10 + digit)) st)
       else if (ch =? 109) || (ch =? 77) then
         modify (λ st, set_format (int32 (number st)) st)
       else if (ch =? 119) || (ch =? 87) then
         graphics_data fuel
       else mret tt);;
      (if in_range 96 126 ch then modify (set_number 0)
       else if in_range 64 94 ch then modify (set_in_raster false)
       else mret tt)
    else mret tt.

(** The [while ((ch = getc(in_file)) >= 0)] loop, lines 167-214. *)
Fixpoint read_page_loop (fuel : nat) (n : nat) : M unit :=
  match n with
  | O => out_of_fuel
  | S n' =>
      ch ← getc;
      if ch >=? 0 then
        if ch =? 12 then mret tt
        else read_page_char fuel ch;; read_page_loop fuel n'
      else mret tt
  end.

(** [read_page], lines 159-216.  [number] is declared without a value and
    keeps whatever the state holds; it is written before it is read. *)
Definition read_page (fuel : nat) : M bool :=
  modify (set_in_raster false);;
  modify (set_format 0);;
  modify (set_page []);;
  modify (set_line []);;
  read_page_loop fuel fuel;;
  p ← gets page;
  mret (match p with [] => false | _ :: _ => true end).

(** The state in which the loop of [read_page] starts, lines 160-166. *)
Definition page_start (st : state) : state :=
  set_line [] (set_page [] (set_format 0 (set_in_raster false st))).

(** The state after [k] rounds of the loop of lines 167-214, each of
    which read an octet other than form-feed and ran its body to the end;
    [None] if one of the first [k] rounds meets the end of the stream, a
    form-feed or an exception. *)
Fixpoint rounds (fuel : nat) (k : nat) (st : state) : option state :=
  match k with
  | O => Some st
  | S k' =>
      match getc st with
      | Ok ch st0 =>
          if (ch >=? 0) && negb (ch =? 12) then
            match read_page_char fuel ch st0 with
            | Ok _ st1 => rounds fuel k' st1
            | _ => None
            end
          else None
      | _ => None
      end
  end.

(** ** Driver, lines 264-283 *)

(** [write_pnm] is outside the decoder: the page is recorded as written. *)
Definition write_pnm : M unit :=
  modify (λ st, emit (wrote_page (page st)) st).

(** [while (read_page()) { ... write_pnm ... }] *)
Fixpoint main_loop (fuel : nat) (n : nat) : M unit :=
  match n with
  | O => out_of_fuel
  | S n' =>
      more ← read_page fuel;
      if more : bool then write_pnm;; main_loop fuel n' else mret tt
  end.

(** The initial state of the process on a given input file. *)
Definition start (input : list byte) : state :=
  State input [] [] 0 false 0 0 [].

(** Every loop of the program reads at least one octet per round, so the
    length of the input bounds the fuel. *)
Definition enough (st : state) : nat := S (length (in_file st)).

Definition run_page (st : state) : result bool := read_page (enough st) st.
Definition run_main (input : list byte) : result unit :=
  main_loop (S (length input)) (S (length input)) (start input).

(** ** Specification vocabulary *)

(** The outcome of a computation satisfies [Q] on a value, [E] on an
    exception and [D] when the fuel ran out. *)
Definition post {A} (Q : A → state → Prop) (E : exn → state → Prop) (D : Prop)
    (r : result A) : Prop :=
  match r with
  | Ok a st => Q a st
  | Throw e st => E e st
  | OutOfFuel => D
  end.

(** [keeps R RE P D m]: from a state satisfying [P], a normal outcome of
    [m] is related to the start by [R], an exception by [RE], and [D] holds
    if the fuel runs out. *)
Definition keeps (R RE : state → state → Prop) (P : state → Prop) (D : Prop)
    {A} (m : M A) : Prop :=
  ∀ st, P st → post (λ _ st', R st st') (λ _ st', RE st st') D (m st).

(** What a reader leaves alone: the buffers of the decoder. *)
Definition same_buffers (st st' : state) : Prop :=
  line st' = line st ∧ line_offset st' = line_offset st ∧ page st' = page st.

(** What the decoder leaves alone: the parser's mode and format and the
    outputs. *)
Definition same_parser (st st' : state) : Prop :=
  in_raster st' = in_raster st ∧ format st' = format st ∧ trace st' = trace st.

(** What the graphics-data branch leaves alone: mode and format. *)
Definition same_mode (st st' : state) : Prop :=
  in_raster st' = in_raster st ∧ format st' = format st.


(** The file only gets shorter. *)
Definition shorter (st st' : state) : Prop :=
  (length (in_file st') ≤ length (in_file st))%nat.

Definition any (st st' : state) : Prop := True.

(** The fuel covers the file that is left. *)
Definition fits (fuel : nat) (st : state) : Prop :=
  (length (in_file st) < fuel)%nat.

(** [m'] does what [m] does, and may go on where [m] runs out of fuel. *)
Definition below {A} (m m' : M A) : Prop :=
  ∀ st, m st = OutOfFuel ∨ m st = m' st.

(** The block counter is an [unsigned]. *)
Definition number_ok (st : state) : Prop := 0 ≤ number st < 2 ^ 32.

(** The length bound on the previous-line buffer and on the lines of the
    page, and the position of the cursor while the edits of a line run. *)
Definition page_ok (st : state) : Prop :=
  Z.of_nat (length (line st)) ≤ MAX_LINE_SIZE
  ∧ Forall (λ l, Z.of_nat (length l) ≤ MAX_LINE_SIZE) (page st).

Definition edit_ok (st : state) : Prop :=
  0 ≤ line_offset st ≤ Z.of_nat (length (line st))
  ∧ Z.of_nat (length (line st)) ≤ MAX_LINE_SIZE.

(** What an edit with the given offset and count does to the buffers: the
    line is padded with zero octets up to the end of the edit, the [count]
    octets [vs] are stored after the skipped ones, the cursor moves to the
    end. *)
Definition edit_effect (offset count : Z) (st st' : state) : Prop :=
  let e := line_offset st + offset + count in
  e ≤ MAX_LINE_SIZE
  ∧ line_offset st' = e
  ∧ page st' = page st
  ∧ ∃ vs : list Z, length vs = Z.to_nat count
      ∧ line st' = list_inserts (Z.to_nat (line_offset st + offset)) vs
                     (line st ++ replicate (Z.to_nat e - length (line st)) 0).

(** Octet [i] of [new] is the octet of [old], or zero past the end of
    [old]. *)
Definition carried (old new : list Z) (i : nat) : Prop :=
  new !! i = resize (length new) 0 old !! i.

(** ** Bitmap writer, lines 218-231 *)

(** [%zd] prints its [size_t] argument as a signed number of 64 bits. *)
Definition ssize (z : Z) : Z :=
  let r := z mod 2 ^ 64 in if r <? 2 ^ 63 then r else r - 2 ^ 64.

(** The octets of a text written to a file. *)
Definition octets (s : string) : list Z :=
  (λ a, Z.of_N (Ascii.N_of_ascii a)) <$> String.list_ascii_of_string s.

(** [fwrite(data, 1, count, f)] on a file held as the list of its octets. *)
Definition fwrite (data : list Z) (count : nat) (f : list Z) : list Z :=
  f ++ take count data.

(** The loop of lines 220-223: [width = std::max(width, l.size())]. *)
Definition pnm_width (p : list (list Z)) : Z :=
  fold_left (λ width l, Z.max width (Z.of_nat (length l))) p 0.

(** The text of line 225. *)
Definition pnm_header (p : list (list Z)) : string :=
  "P4 " +:+ pretty (ssize (size_t (pnm_width p * 8))) +:+ " "
        +:+ pretty (ssize (Z.of_nat (length p)))
        +:+ String (Ascii.ascii_of_nat 10) "".

(** [write_pnm], lines 218-231, as the octets it leaves in an empty
    file: the header, then each line followed by [width - l.size()] octets
    of the zero vector [empty]. *)
Definition write_pnm_file (p : list (list Z)) : list Z :=
  let width := pnm_width p in
  let f := octets (pnm_header p) in
  let empty := replicate (Z.to_nat width) 0 in
  fold_left
    (λ f l,
       fwrite empty (Z.to_nat (size_t (width - Z.of_nat (length l))))
         (fwrite l (length l) f))
    p f.

(** ** Driver with file names, lines 264-278 *)

(** [out_prefix + "-" + std::to_string(page_num) + ".pbm"] *)
Definition out_filename (out_prefix : string) (page_num : Z) : string :=
  out_prefix +:+ "-" +:+ pretty page_num +:+ ".pbm".

(** The loop of [main] with the files it creates, as pairs of name and
    content in the order of creation.  [fopen] is taken to succeed; a
    name used twice would mean a file written over.  [page_num] is an
    [int]. *)
Fixpoint main_files (fuel : nat) (n : nat) (out_prefix : string)
    (page_num : Z) (files : list (string * list Z)) : M (list (string * list Z)) :=
  match n with
  | O => out_of_fuel
  | S n' =>
      more ← read_page fuel;
      if more : bool then
        p ← gets page;
        write_pnm;;
        main_files fuel n' out_prefix (int32 (page_num + 1))
          (files ++ [(out_filename out_prefix page_num, write_pnm_file p)])
      else mret files
  end.

(** ** More specification vocabulary *)

#[export] Instance byte_eq_decision : EqDecision byte := Byte.byte_eq_dec.

(** The pages handed to [write_pnm] so far, oldest first. *)
Definition written (st : state) : list (list (list Z)) :=
  omap (λ e, match e with wrote_page p => Some p | warn_unread _ => None end)
       (trace st).

(** No page was written between [st] and [st']. *)
Definition same_written (st st' : state) : Prop := written st' = written st.

(** The page of [st'] is the page of [st]. *)
Definition same_page (st st' : state) : Prop := page st' = page st.

(** The ranges follow one another from cursor [c] to cursor [c']: each
    starts at or after the end of the one before. *)
Fixpoint spans_from (c : Z) (spans : list (Z * Z)) (c' : Z) : Prop :=
  match spans with
  | [] => c' = c
  | (a, b) :: rest => c ≤ a ≤ b ∧ spans_from b rest c'
  end.

(** The value of a run of decimal digits read after the value [acc]. *)
Definition decimal (acc : Z) (ds : list byte) : Z :=
  fold_left (λ a d, a * 10 + (byte_val d - 48)) ds acc.

Definition is_digit (b : byte) : Prop := 48 ≤ byte_val b ≤ 57.

(** What is left of a stream after its first form-feed. *)
Fixpoint after_ff (l : list byte) : list byte :=
  match l with
  | [] => []
  | b :: rest => if byte_val b =? 12 then rest else after_ff rest
  end.

(** Two states that differ at most in [number], and only while the parser
    is outside raster mode. *)
Definition alike (s1 s2 : state) : Prop :=
  s1 = s2 ∨ (in_raster s2 = false ∧ ∃ n, s1 = set_number n s2).

(** Two outcomes of the same kind, with the same value, in states that are
    [alike]. *)
Definition alike_result {A} (r1 r2 : result A) : Prop :=
  match r1, r2 with
  | Ok a s1, Ok b s2 => a = b ∧ alike s1 s2
  | Throw e1 s1, Throw e2 s2 => e1 = e2 ∧ alike s1 s2
  | OutOfFuel, OutOfFuel => True
  | _, _ => False
  end.

(** * Properties *)

(** ** Machine integers and octets *)

Lemma byte_val_range (b : byte) : 0 ≤ byte_val b < 256.
Proof.
  unfold byte_val. pose proof (Byte.to_N_bounded b) as H. lia.
Qed.

Lemma byte_val_xff (b : byte) : byte_val b = 255 ↔ b = xff.
Proof.
  split; [|intros ->; reflexivity].
  intros H. unfold byte_val in H.
  assert (Byte.to_N b = 255%N) as E by lia.
  apply (f_equal Byte.of_N) in E. rewrite Byte.of_to_N in E.
  by injection E.
Qed.

Lemma u8_small z : 0 ≤ z < 256 → u8 z = z.
Proof. intros. unfold u8. by apply Z.mod_small. Qed.

Lemma u16_small z : 0 ≤ z < 65536 → u16 z = z.
Proof. intros. unfold u16. by apply Z.mod_small. Qed.

Lemma u32_small z : 0 ≤ z < 4294967296 → u32 z = z.
Proof. intros. unfold u32. by apply Z.mod_small. Qed.


Lemma size_t_small z : 0 ≤ z < 2 ^ 64 → size_t z = z.
Proof. intros. unfold size_t. by apply Z.mod_small. Qed.

Lemma u32_add_l a b : u32 (u32 a + b) = u32 (a + b).
Proof. unfold u32. by rewrite Zplus_mod_idemp_l. Qed.

Lemma u16_range z : 0 ≤ u16 z < 65536.
Proof. unfold u16. apply Z.mod_pos_bound. lia. Qed.

Lemma u32_range z : 0 ≤ u32 z < 4294967296.
Proof. unfold u32. apply Z.mod_pos_bound. lia. Qed.

(** Converting an [unsigned] down to [uint16_t] keeps the value modulo
    2^16. *)
Lemma u16_u32 z : u16 (u32 z) = z mod 2 ^ 16.
Proof.
  unfold u16, u32. apply Z.mod_mod_divide.
  exists (2 ^ 16). reflexivity.
Qed.

(** The [int8_t] detour of [read_edit] tests the top bit and hands the
    octet on unchanged. *)
Lemma int8_neg c : 0 ≤ c < 256 → (int8 c <? 0) = (128 <=? c).
Proof.
  intros. unfold int8. rewrite Z.mod_small by lia.
  change (2 ^ 7) with 128. change (2 ^ 8) with 256.
  destruct (Z.ltb_spec c 128); lia.
Qed.

Lemma u8_int8 c : 0 ≤ c < 256 → u8 (int8 c) = c.
Proof.
  intros. unfold u8, int8. rewrite (Z.mod_small c) by lia.
  change (2 ^ 7) with 128. change (2 ^ 8) with 256.
  destruct (Z.ltb_spec c 128).
  - apply Z.mod_small; lia.
  - replace (c - 256) with (c + (-1) * 256) by lia.
    rewrite Z_mod_plus_full. apply Z.mod_small; lia.
Qed.

(** ** Reasoning about the monad *)

Lemma bind_Ok {A B} (m : M A) (f : A → M B) st b st' :
  (m ≫= f) st = Ok b st' ↔ ∃ a st1, m st = Ok a st1 ∧ f a st1 = Ok b st'.
Proof.
  unfold mbind, M_bind. destruct (m st) as [a st1| |]; split.
  - eauto.
  - by intros (? & ? & [= <- <-] & ?).
  - done.
  - by intros (? & ? & ? & ?).
  - done.
  - by intros (? & ? & ? & ?).
Qed.

Lemma bind_Throw {A B} (m : M A) (f : A → M B) st e st' :
  (m ≫= f) st = Throw e st' ↔
  m st = Throw e st' ∨ ∃ a st1, m st = Ok a st1 ∧ f a st1 = Throw e st'.
Proof.
  unfold mbind, M_bind. destruct (m st) as [a st1|e1 st1|]; split.
  - intros H. right. eauto.
  - intros [?|(? & ? & ? & ?)]; by simplify_eq.
  - intros [= -> ->]. by left.
  - intros [?|(? & ? & ? & ?)]; by simplify_eq.
  - done.
  - intros [?|(? & ? & ? & ?)]; by simplify_eq.
Qed.

Lemma bind_eq {A B} (m : M A) (f : A → M B) st a st1 :
  m st = Ok a st1 → (m ≫= f) st = f a st1.
Proof. unfold mbind, M_bind. by intros ->. Qed.

Lemma bind_throw_eq {A B} (m : M A) (f : A → M B) st e st1 :
  m st = Throw e st1 → (m ≫= f) st = Throw e st1.
Proof. unfold mbind, M_bind. by intros ->. Qed.

Lemma post_bind {A B} (m : M A) (f : A → M B) Q E D st :
  post (λ a st1, post Q E D (f a st1)) E D (m st) → post Q E D ((m ≫= f) st).
Proof. unfold mbind, M_bind. by destruct (m st). Qed.

Lemma post_mono {A} (Q Q' : A → state → Prop) (E E' : exn → state → Prop) D r :
  post Q E D r → (∀ a st, Q a st → Q' a st) → (∀ e st, E e st → E' e st) →
  post Q' E' D r.
Proof. destruct r; simpl; eauto. Qed.

(** ** Framing: what a computation may change *)

Create HintDb keeps.

Section Frame.
Variables R RE : state → state → Prop.
Variable P : state → Prop.
Variable D : Prop.
Hypothesis R_refl : ∀ st, P st → R st st.
Hypothesis RE_refl : ∀ st, P st → RE st st.
Hypothesis R_trans : ∀ a b c, R a b → R b c → R a c.
Hypothesis R_RE : ∀ a b c, R a b → RE b c → RE a c.
Hypothesis P_R : ∀ a b, P a → R a b → P b.

Abbreviation keeps := (keeps R RE P D).

Lemma keeps_ret {A} (a : A) : keeps (mret a).
Proof. intros st HP. by apply R_refl. Qed.

Lemma keeps_throw {A} e : keeps (throw (A:=A) e).
Proof. intros st HP. by apply RE_refl. Qed.

Lemma keeps_gets {A} (f : state → A) : keeps (gets f).
Proof. intros st HP. by apply R_refl. Qed.

Lemma keeps_modify f : (∀ st, P st → R st (f st)) → keeps (modify f).
Proof. intros H st HP. by apply H. Qed.

Lemma keeps_bind {A B} (m : M A) (f : A → M B) :
  keeps m → (∀ a, keeps (f a)) → keeps (m ≫= f).
Proof.
  intros Hm Hf st HP. apply post_bind. specialize (Hm st HP).
  destruct (m st) as [a st1| |]; simpl in *; [|done..].
  specialize (Hf a st1 (P_R _ _ HP Hm)).
  eapply post_mono; [exact Hf|..]; simpl; eauto.
Qed.

Lemma keeps_if {A} (b : bool) (m1 m2 : M A) :
  keeps m1 → keeps m2 → keeps (if b then m1 else m2).
Proof. by destruct b. Qed.

Lemma keeps_for_n n body : keeps body → keeps (for_n n body).
Proof.
  intros Hb. induction n as [|n IH]; simpl.
  - apply keeps_ret.
  - apply keeps_bind; [done|]. by intros _.
Qed.

(** Without a claim on the fuel the overflow loop keeps what its reader
    keeps. *)
Lemma keeps_overflow_partial next_character n sum :
  D → keeps next_character → keeps (read_overflow_loop next_character n sum).
Proof.
  intros HD Hn. revert sum. induction n as [|n IH]; intros sum; simpl.
  - by intros st _.
  - apply keeps_bind; [done|]. intros ch. apply keeps_if; [done|].
    apply keeps_ret.
Qed.

(** The raster decoder touches the state through its reader and through
    [line], [line_offset] and [page] only. *)
Section FrameDecoder.
Variable next_character : M Z.
Variable fuel : nat.
Hypothesis next_keeps : keeps next_character.
Hypothesis overflow_keeps :
  ∀ sum, keeps (read_overflow_loop next_character fuel sum).
Hypothesis R_line : ∀ v st, P st → R st (set_line v st).
Hypothesis R_line_offset : ∀ v st, P st → R st (set_line_offset v st).
Hypothesis R_page : ∀ v st, P st → R st (set_page v st).

Local Hint Resolve keeps_ret keeps_throw keeps_gets keeps_modify
  keeps_if keeps_for_n next_keeps overflow_keeps
  R_line R_line_offset R_page : keeps.

Ltac keeps_auto :=
  repeat first
    [ progress eauto with keeps
    | apply keeps_bind; [|intros ?]
    | apply keeps_if
    | apply keeps_for_n
    | apply keeps_modify; intros ? ?
    ].

Lemma keeps_repeat_fields cmd :
  keeps (repeat_fields next_character fuel cmd).
Proof. unfold repeat_fields, add_overflow, read_overflow. keeps_auto. Qed.

Lemma keeps_substitute_fields cmd :
  keeps (substitute_fields next_character fuel cmd).
Proof. unfold substitute_fields, add_overflow, read_overflow. keeps_auto. Qed.

Lemma keeps_edit_fields : keeps (edit_fields next_character fuel).
Proof.
  unfold edit_fields. apply keeps_bind; [done|]. intros c.
  apply keeps_if; [|apply keeps_substitute_fields].
  apply keeps_bind; [apply keeps_repeat_fields|].
  intros [[o n] d]. apply keeps_ret.
Qed.

Lemma keeps_add_overflow field :
  keeps (add_overflow next_character fuel field).
Proof. unfold add_overflow, read_overflow. keeps_auto. Qed.

Lemma keeps_grow_line offset count : keeps (grow_line offset count).
Proof. unfold grow_line. keeps_auto. Qed.

Lemma keeps_advance v : keeps (advance v).
Proof. unfold advance. keeps_auto. Qed.

Lemma keeps_fill_n count data : keeps (fill_n count data).
Proof. unfold fill_n. keeps_auto. Qed.

Lemma keeps_generate_n i count : keeps (generate_n next_character i count).
Proof.
  revert i. induction count as [|count IH]; intros i; simpl; keeps_auto.
Qed.

Local Hint Resolve keeps_add_overflow keeps_grow_line keeps_advance
  keeps_fill_n keeps_generate_n : keeps.

Lemma keeps_read_repeat cmd : keeps (read_repeat next_character fuel cmd).
Proof. unfold read_repeat. keeps_auto. Qed.

Lemma keeps_read_substitute cmd :
  keeps (read_substitute next_character fuel cmd).
Proof. unfold read_substitute. keeps_auto. Qed.

Local Hint Resolve keeps_read_repeat keeps_read_substitute : keeps.

Lemma keeps_read_edit : keeps (read_edit next_character fuel).
Proof. unfold read_edit. keeps_auto. Qed.

Local Hint Resolve keeps_read_edit : keeps.

Lemma keeps_read_line : keeps (read_line next_character fuel).
Proof. unfold read_line. keeps_auto. Qed.

Local Hint Resolve keeps_read_line : keeps.

Lemma keeps_read_block : keeps (read_block next_character fuel).
Proof. unfold read_block. keeps_auto. Qed.
End FrameDecoder.

(** [getc] keeps whatever does not depend on the file. *)
Lemma keeps_getc :
  (∀ v st, P st → R st (set_in_file v st)) → keeps getc.
Proof.
  intros H st HP. unfold getc. destruct (in_file st); simpl; auto.
Qed.

(** The wrapper parser touches the state through [getc], its own locals,
    the warning, and the block decoder. *)
Section FrameParser.
Variable fuel : nat.
Hypothesis getc_keeps : keeps getc.
Hypothesis R_number : ∀ v st, P st → R st (set_number v st).
Hypothesis R_in_raster : ∀ v st, P st → R st (set_in_raster v st).
Hypothesis R_format : ∀ v st, P st → R st (set_format v st).
Hypothesis R_emit : ∀ k st, P st → R st (emit (warn_unread k) st).
Hypothesis block_keeps : keeps (read_block get_next_block_character fuel).
Hypothesis drain_keeps : keeps (drain fuel).

Lemma keeps_get : keeps get.
Proof.
  unfold get. apply keeps_bind; [done|]. intros ch.
  apply keeps_if; [apply keeps_throw|apply keeps_ret].
Qed.

(** Without a claim on the fuel the drain loop keeps what [get] keeps. *)
Lemma keeps_drain_partial n : D → keeps (drain n).
Proof.
  intros HD. induction n as [|n IH]; simpl.
  - by intros st _.
  - apply keeps_bind; [apply keeps_gets|]. intros k.
    apply keeps_if; [|apply keeps_ret].
    apply keeps_bind; [apply keeps_get|]. intros _.
    apply keeps_bind; [apply keeps_modify; auto|]. by intros _.
Qed.

Lemma keeps_graphics_data : keeps (graphics_data fuel).
Proof.
  unfold graphics_data. apply keeps_bind; [apply keeps_gets|]. intros f.
  apply keeps_bind.
  { apply keeps_if; [done|apply keeps_throw]. }
  intros _. apply keeps_bind; [apply keeps_gets|]. intros k.
  apply keeps_if; [|apply keeps_ret].
  apply keeps_bind; [apply keeps_modify; auto|]. by intros _.
Qed.

Lemma keeps_read_page_char ch : keeps (read_page_char fuel ch).
Proof.
  unfold read_page_char. apply keeps_if.
  - apply keeps_bind; [apply keeps_get|]. intros ch1.
    apply keeps_bind; [apply keeps_get|]. intros ch2.
    apply keeps_if; [|apply keeps_ret].
    apply keeps_bind; [apply keeps_modify; auto|]. intros _.
    apply keeps_modify; auto.
  - apply keeps_bind; [apply keeps_gets|]. intros r.
    apply keeps_if; [|apply keeps_ret].
    apply keeps_bind.
    + repeat apply keeps_if; try apply keeps_ret;
        try apply keeps_graphics_data; apply keeps_modify; auto.
    + intros _. repeat apply keeps_if; try apply keeps_ret;
        apply keeps_modify; auto.
Qed.

Lemma keeps_read_page_loop_partial n : D → keeps (read_page_loop fuel n).
Proof.
  intros HD. induction n as [|n IH]; simpl.
  - by intros st _.
  - apply keeps_bind; [done|]. intros ch.
    repeat apply keeps_if; try apply keeps_ret.
    apply keeps_bind; [apply keeps_read_page_char|]. by intros _.
Qed.
End FrameParser.
End Frame.

(** ** The byte readers *)

Lemma get_Ok st b rest :
  in_file st = b :: rest → get st = Ok (byte_val b) (set_in_file rest st).
Proof.
  intros H. unfold get, getc, mbind, M_bind. rewrite H.
  pose proof (byte_val_range b).
  destruct (Z.ltb_spec (byte_val b) 0); [lia|].
  unfold mret, M_ret. by rewrite u8_small.
Qed.

Lemma get_eof st : in_file st = [] → get st = Throw unexpected_eof st.
Proof. intros H. unfold get, getc, mbind, M_bind. by rewrite H. Qed.

Lemma block_char_Ok st b rest :
  in_file st = b :: rest → 0 < number st < 2 ^ 32 →
  get_next_block_character st
  = Ok (byte_val b) (set_in_file rest (set_number (number st - 1) st)).
Proof.
  intros H Hn. unfold get_next_block_character, gets, mbind at 1, M_bind at 1.
  destruct (Z.leb_spec (number st) 0); [lia|].
  unfold modify, mbind, M_bind. rewrite u32_small by lia.
  by apply get_Ok.
Qed.

Lemma block_char_end st :
  number st ≤ 0 → get_next_block_character st = Throw read_past_block_end st.
Proof.
  intros Hn. unfold get_next_block_character, gets, mbind, M_bind.
  by destruct (Z.leb_spec (number st) 0); [|lia].
Qed.

Lemma block_char_eof st :
  in_file st = [] → 0 < number st →
  get_next_block_character st
  = Throw unexpected_eof (set_number (u32 (number st - 1)) st).
Proof.
  intros H Hn. unfold get_next_block_character, gets, mbind at 1, M_bind at 1.
  destruct (Z.leb_spec (number st) 0); [lia|].
  unfold modify, mbind, M_bind. by apply get_eof.
Qed.

(** The three ways a read through the block reader can go. *)
Lemma block_char_cases st :
  (number st ≤ 0
   ∧ get_next_block_character st = Throw read_past_block_end st)
  ∨ (0 < number st ∧ in_file st = []
     ∧ get_next_block_character st
       = Throw unexpected_eof (set_number (u32 (number st - 1)) st))
  ∨ (0 < number st ∧ ∃ b rest, in_file st = b :: rest
     ∧ get_next_block_character st
       = Ok (byte_val b) (set_in_file rest (set_number (u32 (number st - 1)) st))).
Proof.
  destruct (Z.le_gt_cases (number st) 0) as [Hn|Hn].
  { left. split; [done|]. by apply block_char_end. }
  right. destruct (in_file st) as [|b rest] eqn:Hin.
  { left. split_and!; [lia|done|]. apply block_char_eof; [done|lia]. }
  right. split; [lia|]. exists b, rest. split; [done|].
  unfold get_next_block_character, gets, mbind at 1, M_bind at 1.
  destruct (Z.leb_spec (number st) 0); [lia|].
  unfold modify, mbind, M_bind. by apply get_Ok.
Qed.

Lemma block_char_range st ch st' :
  get_next_block_character st = Ok ch st' → 0 ≤ ch < 256.
Proof.
  destruct (block_char_cases st) as [[_ E]|[(_ & _ & E)|(_ & b & rest & _ & E)]];
    rewrite E; intros [= <- <-]. apply byte_val_range.
Qed.

Lemma block_char_buffers :
  keeps same_buffers same_buffers (λ _, True) True get_next_block_character.
Proof.
  intros st _.
  destruct (block_char_cases st) as [[_ E]|[(_ & _ & E)|(_ & b & rest & _ & E)]];
    rewrite E; by simpl.
Qed.

Lemma block_char_parser :
  keeps same_parser same_parser (λ _, True) True get_next_block_character.
Proof.
  intros st _.
  destruct (block_char_cases st) as [[_ E]|[(_ & _ & E)|(_ & b & rest & _ & E)]];
    rewrite E; by simpl.
Qed.


(** A successful read takes one octet from the file. *)
Lemma block_char_shorter st ch st' :
  get_next_block_character st = Ok ch st' →
  (length (in_file st') < length (in_file st))%nat.
Proof.
  destruct (block_char_cases st) as [[_ E]|[(_ & _ & E)|(_ & b & rest & Hin & E)]];
    rewrite E; intros [= <- <-]. rewrite Hin. simpl. lia.
Qed.

Lemma same_buffers_refl st : same_buffers st st.
Proof. done. Qed.

Lemma same_buffers_trans a b c :
  same_buffers a b → same_buffers b c → same_buffers a c.
Proof. unfold same_buffers. intros (?&?&?) (?&?&?). split_and!; congruence. Qed.





(** ** The overflow extension *)

(** On [k] octets 0xFF followed by an octet [v] other than 0xFF, the loop
    reads exactly these [k + 1] octets and returns their sum. *)
Lemma read_overflow_loop_run (k : nat) : ∀ n sum (v : byte) rest st,
  v ≠ xff → in_file st = replicate k xff ++ v :: rest →
  (k < n)%nat → Z.of_nat k < number st < 2 ^ 32 →
  read_overflow_loop get_next_block_character n sum st
  = Ok (u32 (sum + 255 * Z.of_nat k + byte_val v))
       (set_in_file rest (set_number (number st - Z.of_nat k - 1) st)).
Proof.
  induction k as [|k IH]; intros n sum v rest st Hv Hin Hn Hnum;
    (destruct n as [|n]; [lia|]); simpl in *.
  - rewrite (bind_eq _ _ _ _ _ (block_char_Ok _ _ _ Hin ltac:(lia))).
    destruct (Z.eqb_spec (byte_val v) 255) as [E|_].
    { by apply byte_val_xff in E. }
    unfold mret, M_ret. do 2 f_equal; [f_equal; lia|].
    f_equal. lia.
  - rewrite (bind_eq _ _ _ _ _ (block_char_Ok _ _ _ Hin ltac:(lia))).
    change (byte_val xff) with 255. simpl.
    rewrite (IH n _ v rest); [|done|done|lia|simpl; lia].
    f_equal.
    + rewrite <- !Z.add_assoc, u32_add_l. f_equal. lia.
    + destruct st; unfold set_in_file, set_number; simpl. f_equal. lia.
Qed.

(** C4.  [read_overflow] reads octets and adds them up, stops after the
    first octet that is not 0xFF and returns the total, that last octet
    included: a sole octet [v] below 255 yields [v], the octets 255, 255,
    [v] yield 510 + [v], and in general [k] octets 0xFF followed by [v]
    yield 255 * k + v (in [unsigned] arithmetic), with exactly those
    octets taken from the block. *)
Theorem read_overflow_sums (v : byte) (rest : list byte) (st : state) (fuel : nat) :
  byte_val v < 255 → number st < 2 ^ 32 →
  (in_file st = v :: rest → 0 < number st → (0 < fuel)%nat →
   read_overflow get_next_block_character fuel st
   = Ok (byte_val v) (set_in_file rest (set_number (number st - 1) st)))
  ∧ (in_file st = xff :: xff :: v :: rest → 2 < number st → (2 < fuel)%nat →
     read_overflow get_next_block_character fuel st
     = Ok (510 + byte_val v) (set_in_file rest (set_number (number st - 3) st)))
  ∧ (∀ k : nat, in_file st = replicate k xff ++ v :: rest →
     Z.of_nat k < number st → (k < fuel)%nat →
     read_overflow get_next_block_character fuel st
     = Ok (u32 (255 * Z.of_nat k + byte_val v))
          (set_in_file rest (set_number (number st - Z.of_nat k - 1) st))).
Proof.
  intros Hv Hnum.
  assert (v ≠ xff) as Hv'.
  { intros ->. vm_compute in Hv. discriminate. }
  pose proof (byte_val_range v) as Hr.
  assert (∀ k : nat, in_file st = replicate k xff ++ v :: rest →
     Z.of_nat k < number st → (k < fuel)%nat →
     read_overflow get_next_block_character fuel st
     = Ok (u32 (255 * Z.of_nat k + byte_val v))
          (set_in_file rest (set_number (number st - Z.of_nat k - 1) st))) as Hgen.
  { intros k Hin Hkn Hk. unfold read_overflow.
    rewrite (read_overflow_loop_run k fuel 0 v rest st); [|done|done|done|lia].
    do 2 f_equal. }
  split; [|split; [|exact Hgen]].
  - intros Hin Hn Hfuel. rewrite (Hgen 0%nat); [|done|lia|lia].
    f_equal.
    + rewrite u32_small; lia.
    + do 2 f_equal. lia.
  - intros Hin Hn Hfuel. rewrite (Hgen 2%nat); [|done|lia|lia].
    f_equal.
    + rewrite u32_small; lia.
    + do 2 f_equal. lia.
Qed.

Lemma read_overflow_sums_witness :
  read_overflow get_next_block_character 3 (set_number 3 (start [xff; xff; x03]))
  = Ok 513 (set_in_file [] (set_number 0 (set_number 3 (start [xff; xff; x03])))).
Proof.
  refine (proj1 (proj2 (read_overflow_sums x03 [] (set_number 3 (start [xff; xff; x03])) 3
                          _ _)) eq_refl _ _).
  - vm_compute. reflexivity.
  - vm_compute. reflexivity.
  - vm_compute. reflexivity.
  - lia.
Defined.

(** ** Scenario: overflow on the count *)

(** C7.  From an empty previous-line buffer the block payload
    00 01 01 9F FF 03 00 decodes to exactly one scan line of 291 octets
    0x00: the overflow extension FF 03 is 258, the repeat edit 0x9F has
    offset 0, count 31 + 258 + 2 = 291 and data octet 0x00, and the seven
    octets of the block are all used. *)
Theorem overflow_count_scenario (f : nat) (rest : list byte) (pg : list (list Z))
    (lo : Z) (r : bool) (fmt : Z) (tr : list event) :
  read_block get_next_block_character (S (S f))
    (State ([x00; x01; x01; x9f; xff; x03; x00] ++ rest) pg [] lo r 7 fmt tr)
  = Ok tt (State rest (pg ++ [replicate 291 0]) (replicate 291 0) 291 r 0 fmt tr)
  ∧ read_overflow get_next_block_character (S (S f))
      (State ([xff; x03; x00] ++ rest) pg [] 0 r 3 fmt tr)
    = Ok 258 (State (x00 :: rest) pg [] 0 r 1 fmt tr)
  ∧ repeat_fields get_next_block_character (S (S f)) 159
      (State ([xff; x03; x00] ++ rest) pg [] 0 r 3 fmt tr)
    = Ok (0, 291, 0) (State rest pg [] 0 r 0 fmt tr).
Proof. repeat split; vm_compute; reflexivity. Qed.

(** ** The two halves of an edit *)

Lemma read_repeat_split next_character fuel cmd st :
  read_repeat next_character fuel cmd st
  = ('(offset, count, data) ← repeat_fields next_character fuel cmd;
     apply_repeat offset count data) st.
Proof.
  unfold read_repeat, repeat_fields, apply_repeat, mbind, M_bind, mret, M_ret.
  repeat case_match; simplify_eq; done.
Qed.

Lemma read_substitute_split next_character fuel cmd st :
  read_substitute next_character fuel cmd st
  = ('(offset, count) ← substitute_fields next_character fuel cmd;
     apply_substitute next_character offset count) st.
Proof.
  unfold read_substitute, substitute_fields, apply_substitute,
    mbind, M_bind, mret, M_ret.
  repeat case_match; simplify_eq; done.
Qed.

Lemma set_line_id st : set_line (line st) st = st.
Proof. by destruct st. Qed.

(** Lines 98-103 and 118-123 under the invariant of the cursor: with
    [e] the end of the edit, a line overflow if [e] is past the limit,
    otherwise the line padded with zero octets up to [e]. *)
Lemma grow_line_spec offset count st :
  edit_ok st → 0 ≤ offset < 65536 → 0 ≤ count < 65536 →
  grow_line offset count st
  = if line_offset st + offset + count >? MAX_LINE_SIZE
    then Throw line_overflow st
    else Ok tt (set_line
                  (line st ++ replicate (Z.to_nat (line_offset st + offset + count)
                                         - length (line st)) 0) st).
Proof.
  intros [Hlo Hlen] Ho Hc. unfold MAX_LINE_SIZE in *.
  unfold grow_line, gets, mbind, M_bind.
  rewrite (size_t_small (line_offset st + offset)) by lia.
  rewrite size_t_small by lia.
  set (e := line_offset st + offset + count).
  destruct (Z.gtb_spec e (Z.of_nat (length (line st)))) as [Hgt|Hle].
  - unfold MAX_LINE_SIZE. destruct (Z.gtb_spec e 2000); [done|].
    unfold modify. by rewrite resize_ge by lia.
  - destruct (Z.gtb_spec e 2000); [lia|].
    replace (Z.to_nat e - length (line st))%nat with 0%nat by lia.
    simpl. by rewrite app_nil_r, set_line_id.
Qed.

(** The effect of a repeat edit on the buffers, in closed form. *)
Lemma apply_repeat_spec offset count data st :
  edit_ok st → 0 ≤ offset < 65536 → 0 ≤ count < 65536 →
  apply_repeat offset count data st
  = if line_offset st + offset + count >? MAX_LINE_SIZE
    then Throw line_overflow st
    else Ok tt
      (set_line_offset (line_offset st + offset + count)
        (set_line
          (list_inserts (Z.to_nat (line_offset st + offset))
             (replicate (Z.to_nat count) data)
             (line st ++ replicate (Z.to_nat (line_offset st + offset + count)
                                    - length (line st)) 0)) st)).
Proof.
  intros Hok Ho Hc. unfold apply_repeat, mbind at 1, M_bind at 1.
  rewrite grow_line_spec by done.
  destruct Hok as [Hlo Hlen]. unfold MAX_LINE_SIZE in *.
  destruct (Z.gtb_spec (line_offset st + offset + count) 2000); [done|].
  unfold advance, fill_n, modify, mbind, M_bind. simpl.
  rewrite (size_t_small (line_offset st + offset)) by lia.
  rewrite size_t_small by lia. by destruct st.
Qed.

Section EditEffect.
Variable next_character : M Z.
Variable fuel : nat.
Hypothesis next_buffers :
  keeps same_buffers same_buffers (λ _, True) True next_character.
Hypothesis next_range :
  ∀ st ch st', next_character st = Ok ch st' → 0 ≤ ch < 256.

Lemma generate_n_spec count : ∀ i st st',
  generate_n next_character i count st = Ok tt st' →
  line_offset st' = line_offset st ∧ page st' = page st
  ∧ ∃ vs, length vs = count ∧ line st' = list_inserts i vs (line st).
Proof.
  induction count as [|count IH]; intros i st st'; simpl.
  - intros [= <-]. split_and!; [done..|]. by exists [].
  - intros (v & st1 & Hv & H)%bind_Ok.
    apply bind_Ok in H as ([] & st2 & [= <-] & H).
    apply IH in H as (Hlo & Hpg & vs & Hlen & Hl). simpl in *.
    pose proof (next_buffers st I) as Hb. rewrite Hv in Hb.
    destruct Hb as (Hb1 & Hb2 & Hb3). simpl in *.
    split_and!; [congruence..|].
    exists (v :: vs). split; [simpl; lia|].
    rewrite Hl, Hb1. simpl. rewrite list_insert_inserts_lt by lia. done.
Qed.

Lemma fields_buffers {A} (m : M A) st a st' :
  keeps same_buffers same_buffers (λ _, True) True m →
  m st = Ok a st' → same_buffers st st'.
Proof. intros Hk E. specialize (Hk st I). by rewrite E in Hk. Qed.

Lemma overflow_buffers sum :
  keeps same_buffers same_buffers (λ _, True) True
    (read_overflow_loop next_character fuel sum).
Proof.
  apply keeps_overflow_partial;
    eauto using same_buffers_refl, same_buffers_trans.
Qed.

Lemma repeat_fields_buffers cmd :
  keeps same_buffers same_buffers (λ _, True) True
    (repeat_fields next_character fuel cmd).
Proof.
  apply keeps_repeat_fields;
    eauto using same_buffers_refl, same_buffers_trans, overflow_buffers.
Qed.

Lemma substitute_fields_buffers cmd :
  keeps same_buffers same_buffers (λ _, True) True
    (substitute_fields next_character fuel cmd).
Proof.
  apply keeps_substitute_fields;
    eauto using same_buffers_refl, same_buffers_trans, overflow_buffers.
Qed.

(** Offset and count are [uint16_t] values. *)
Lemma add_overflow_range field st v st' :
  add_overflow next_character fuel field st = Ok v st' → 0 ≤ v < 65536.
Proof.
  unfold add_overflow. intros (s & st1 & _ & [= <- <-])%bind_Ok.
  apply u16_range.
Qed.

Lemma field_range (b : bool) field st v st' :
  (if b then add_overflow next_character fuel (u16 field) else mret (u16 field)) st
  = Ok v st' → 0 ≤ v < 65536.
Proof.
  destruct b.
  - apply add_overflow_range.
  - intros [= <- <-]. apply u16_range.
Qed.

Lemma repeat_fields_range cmd st offset count data st' :
  repeat_fields next_character fuel cmd st = Ok (offset, count, data) st' →
  0 ≤ offset < 65536 ∧ 0 ≤ count < 65536 ∧ 0 ≤ data < 256.
Proof.
  unfold repeat_fields.
  intros (o & st1 & Ho & H)%bind_Ok.
  apply bind_Ok in H as (c & st2 & Hc & H).
  apply bind_Ok in H as (d & st3 & Hd & [= <- <- <- <-]).
  apply field_range in Ho. apply next_range in Hd.
  split_and!; try lia; apply u16_range.
Qed.

Lemma substitute_fields_range cmd st offset count st' :
  substitute_fields next_character fuel cmd st = Ok (offset, count) st' →
  0 ≤ offset < 65536 ∧ 0 ≤ count < 65536.
Proof.
  unfold substitute_fields.
  intros (o & st1 & Ho & H)%bind_Ok.
  apply bind_Ok in H as (c & st2 & Hc & [= <- <- <-]).
  apply field_range in Ho.
  split_and!; try lia; apply u16_range.
Qed.

Lemma edit_ok_buffers st st' : same_buffers st st' → edit_ok st → edit_ok st'.
Proof. unfold edit_ok. intros (-> & -> & _). done. Qed.

Lemma edit_effect_buffers offset count st0 st st' :
  same_buffers st0 st → edit_effect offset count st st' →
  edit_effect offset count st0 st'.
Proof. unfold edit_effect. intros (-> & -> & ->). done. Qed.

Lemma apply_repeat_effect offset count data st st' :
  edit_ok st → 0 ≤ offset < 65536 → 0 ≤ count < 65536 →
  apply_repeat offset count data st = Ok tt st' →
  edit_effect offset count st st'.
Proof.
  intros Hok Ho Hc. rewrite apply_repeat_spec by done.
  destruct (Z.gtb_spec (line_offset st + offset + count) MAX_LINE_SIZE);
    [done|].
  intros [= <-]. unfold edit_effect. simpl. split_and!; [done..|].
  exists (replicate (Z.to_nat count) data).
  by rewrite length_replicate.
Qed.

Lemma apply_substitute_effect offset count st st' :
  edit_ok st → 0 ≤ offset < 65536 → 0 ≤ count < 65536 →
  apply_substitute next_character offset count st = Ok tt st' →
  edit_effect offset count st st'.
Proof.
  intros Hok Ho Hc. unfold apply_substitute, mbind at 1, M_bind at 1.
  rewrite grow_line_spec by done.
  destruct Hok as [Hlo Hlen]. unfold MAX_LINE_SIZE in *.
  destruct (Z.gtb_spec (line_offset st + offset + count) 2000) as [|Hle];
    [done|].
  unfold advance, modify, gets, mbind at 1 2, M_bind at 1 2. simpl.
  rewrite size_t_small by lia.
  intros ([] & st1 & Hg & [= <-])%bind_Ok.
  apply generate_n_spec in Hg as (Hlo' & Hpg & vs & Hvs & Hl). simpl in *.
  unfold edit_effect, MAX_LINE_SIZE. simpl.
  rewrite Hlo', size_t_small by lia.
  split_and!; [done|lia|done|]. by exists vs.
Qed.

(** Every edit that succeeds has the effect its two fields describe. *)
Lemma read_edit_effect st st' :
  edit_ok st → read_edit next_character fuel st = Ok tt st' →
  ∃ offset count st1,
    edit_fields next_character fuel st = Ok (offset, count) st1
    ∧ 0 ≤ offset < 65536 ∧ 0 ≤ count < 65536
    ∧ edit_effect offset count st st'.
Proof.
  intros Hok. unfold read_edit, edit_fields.
  intros (c & st0 & Hc & H)%bind_Ok.
  rewrite (bind_eq _ _ _ _ _ Hc).
  pose proof (fields_buffers _ _ _ _ next_buffers Hc) as Hb0.
  destruct (int8 c <? 0).
  - rewrite read_repeat_split in H.
    apply bind_Ok in H as ([[o n] d] & st1 & Hf & H).
    exists o, n, st1. rewrite (bind_eq _ _ _ _ _ Hf).
    pose proof (fields_buffers _ _ _ _ (repeat_fields_buffers _) Hf) as Hb1.
    apply repeat_fields_range in Hf as (Ho & Hn & _).
    split_and!; [done|lia..|].
    eapply edit_effect_buffers;
      [eapply same_buffers_trans; [exact Hb0|exact Hb1]|].
    eapply apply_repeat_effect; eauto using edit_ok_buffers.
  - rewrite read_substitute_split in H.
    apply bind_Ok in H as ([o n] & st1 & Hf & H).
    exists o, n, st1.
    pose proof (fields_buffers _ _ _ _ (substitute_fields_buffers _) Hf) as Hb1.
    split; [done|].
    apply substitute_fields_range in Hf as (Ho & Hn).
    split_and!; [lia..|].
    eapply edit_effect_buffers;
      [eapply same_buffers_trans; [exact Hb0|exact Hb1]|].
    eapply apply_substitute_effect; eauto using edit_ok_buffers.
Qed.
(** *** Consequences of an edit's effect *)

Lemma edit_effect_ok offset count st st' :
  edit_ok st → 0 ≤ offset → 0 ≤ count → edit_effect offset count st st' →
  edit_ok st'
  ∧ length (line st')
    = (length (line st) `max` Z.to_nat (line_offset st + offset + count))%nat
  ∧ line_offset st ≤ line_offset st'.
Proof.
  intros [Hlo Hlen] Ho Hc (He & Hlo' & _ & vs & Hvs & Hl).
  assert (length (line st')
    = (length (line st) `max` Z.to_nat (line_offset st + offset + count))%nat)
    as Hlen'.
  { rewrite Hl, length_inserts, length_app, length_replicate. lia. }
  unfold edit_ok, MAX_LINE_SIZE in *. rewrite Hlen', Hlo'. lia.
Qed.

Lemma edit_effect_carried offset count st st' (i : nat) :
  edit_ok st → 0 ≤ offset → 0 ≤ count → edit_effect offset count st st' →
  ¬ (line_offset st + offset ≤ Z.of_nat i
     < line_offset st + offset + count) →
  carried (line st) (line st') i.
Proof.
  intros Hok Ho Hc Heff Hi.
  destruct (edit_effect_ok _ _ _ _ Hok Ho Hc Heff) as (_ & Hlen' & _).
  destruct Hok as [Hlo Hlen].
  destruct Heff as (He & Hlo' & _ & vs & Hvs & Hl).
  unfold carried. rewrite Hlen', resize_ge by lia.
  replace (length (line st) `max` Z.to_nat (line_offset st + offset + count)
           - length (line st))%nat
    with (Z.to_nat (line_offset st + offset + count) - length (line st))%nat
    by lia.
  rewrite Hl.
  destruct (decide (Z.of_nat i < line_offset st + offset)).
  - apply list_lookup_inserts_lt. lia.
  - apply list_lookup_inserts_ge. lia.
Qed.

Lemma carried_refl l i : carried l l i.
Proof. unfold carried. by rewrite resize_all. Qed.

Lemma carried_trans a b c i :
  (length a ≤ length b)%nat → (length b ≤ length c)%nat →
  carried a b i → carried b c i → carried a c i.
Proof.
  unfold carried. intros Hab Hbc H1 H2. rewrite H2.
  destruct (decide (i < length b)%nat) as [Hib|Hib].
  - rewrite lookup_resize by lia. rewrite H1.
    destruct (decide (i < length a)%nat).
    + by rewrite !lookup_resize by lia.
    + by rewrite !lookup_resize_new by lia.
  - destruct (decide (i < length c)%nat).
    + by rewrite !lookup_resize_new by lia.
    + by rewrite !lookup_resize_old by lia.
Qed.

Lemma edit_span_fields st offset count st1 :
  edit_fields next_character fuel st = Ok (offset, count) st1 →
  edit_span next_character fuel st
  = Some (line_offset st + offset, line_offset st + offset + count).
Proof. unfold edit_span. by intros ->. Qed.

(** The edits of a line, in sequence: the cursor and the length of the
    line never decrease, the page is not touched, each edit contributes
    one range, and an octet outside all ranges is carried over. *)
Lemma edits_carried n : ∀ st st',
  edit_ok st → for_n n (read_edit next_character fuel) st = Ok tt st' →
  edit_ok st'
  ∧ (length (line st) ≤ length (line st'))%nat
  ∧ line_offset st ≤ line_offset st'
  ∧ page st' = page st
  ∧ length (edit_spans next_character fuel n st) = n
  ∧ ∀ i, covered i (edit_spans next_character fuel n st) = false →
         carried (line st) (line st') i.
Proof.
  induction n as [|n IH]; intros st st' Hok; simpl.
  - intros [= <-]. split_and!; try done; try lia.
    intros i _. apply carried_refl.
  - intros ([] & st1 & He & Hrest)%bind_Ok.
    destruct (read_edit_effect _ _ Hok He)
      as (o & c & st0 & Hf & Ho & Hc & Heff).
    destruct (edit_effect_ok o c st st1) as (Hok1 & Hlen1 & Hlo1);
      [done|lia|lia|done|].
    destruct (IH _ _ Hok1 Hrest) as (Hok' & Hlen' & Hlo' & Hpg & Hsp & Hcar).
    rewrite (edit_span_fields _ _ _ _ Hf), He. simpl.
    split_and!; [done|lia|lia| |lia|].
    + rewrite Hpg. by destruct Heff as (_ & _ & -> & _).
    + intros i [Hi1 Hi2]%orb_false_elim.
      apply (carried_trans _ (line st1)); [lia|done| |by apply Hcar].
      apply (edit_effect_carried o c); [done|lia|lia|done|].
      intros [H1 H2]. simpl in Hi1.
      apply andb_false_iff in Hi1 as [Hi1|Hi1]; lia.
Qed.
End EditEffect.

(** ** Line decoding through the block reader *)

Lemma read_line_first fuel st num_edits st1 :
  get_next_block_character st = Ok num_edits st1 →
  read_line get_next_block_character fuel st
  = ((if num_edits =? 255 then modify (set_line [])
      else modify (set_line_offset 0);;
           for_n (Z.to_nat num_edits) (read_edit get_next_block_character fuel));;
     modify (λ st, set_page (page st ++ [line st]) st)) st1.
Proof. intros H. unfold read_line. by rewrite (bind_eq _ _ _ _ _ H). Qed.

(** A line with [num_edits] other than 255, seen from its first octet:
    the edits run from cursor zero on the previous line, and the buffer
    they leave is the line appended to the page. *)
Lemma read_line_edits fuel st st1 st' num_edits :
  Z.of_nat (length (line st)) ≤ MAX_LINE_SIZE →
  get_next_block_character st = Ok num_edits st1 →
  num_edits ≠ 255 →
  read_line get_next_block_character fuel st = Ok tt st' →
  let spans := edit_spans get_next_block_character fuel (Z.to_nat num_edits)
                 (set_line_offset 0 st1) in
  edit_ok st'
  ∧ length spans = Z.to_nat num_edits
  ∧ (length (line st) ≤ length (line st'))%nat
  ∧ page st' = page st ++ [line st']
  ∧ ∀ i : nat, covered i spans = false → carried (line st) (line st') i.
Proof.
  intros Hlen Hfirst Hne Hline spans.
  rewrite (read_line_first _ _ _ _ Hfirst) in Hline.
  destruct (Z.eqb_spec num_edits 255) as [|_]; [done|].
  apply bind_Ok in Hline as ([] & st2 & Hedits & [= <-]).
  apply bind_Ok in Hedits as ([] & st0 & [= <-] & Hedits).
  destruct (fields_buffers _ _ _ _ block_char_buffers Hfirst) as (Hl1 & _ & Hp1).
  apply (edits_carried _ _ block_char_buffers block_char_range) in Hedits
    as (Hok & Hlen2 & _ & Hpg & Hsp & Hcar).
  2: { unfold edit_ok. simpl. rewrite Hl1. lia. }
  simpl in *. rewrite Hl1 in *.
  split_and!; [done|done|done|by rewrite Hpg, Hp1|done].
Qed.

(** C6.  Carryover: when a line is decoded with a [num_edits] octet other
    than 255, every octet position outside the written ranges of its edits
    (positions an offset skipped, positions the cursor never reached) holds
    what the previous line held there, and zero if the previous line was
    shorter.  The written ranges are [edit_spans]: one per edit, from the
    cursor plus the offset, [count] octets long. *)
Theorem carryover (fuel : nat) (st st1 st' : state) (num_edits : Z) :
  Z.of_nat (length (line st)) ≤ MAX_LINE_SIZE →
  get_next_block_character st = Ok num_edits st1 →
  num_edits ≠ 255 →
  read_line get_next_block_character fuel st = Ok tt st' →
  let spans := edit_spans get_next_block_character fuel (Z.to_nat num_edits)
                 (set_line_offset 0 st1) in
  length spans = Z.to_nat num_edits
  ∧ (length (line st) ≤ length (line st'))%nat
  ∧ page st' = page st ++ [line st']
  ∧ ∀ i : nat, covered i spans = false →
      ((i < length (line st))%nat → line st' !! i = line st !! i)
      ∧ ((length (line st) ≤ i < length (line st'))%nat → line st' !! i = Some 0).
Proof.
  intros Hlen Hfirst Hne Hline spans.
  destruct (read_line_edits fuel st st1 st' num_edits Hlen Hfirst Hne Hline)
    as (_ & Hsp & Hlen' & Hpg & Hcar).
  split_and!; [done..|].
  intros i Hi. specialize (Hcar i Hi). unfold carried in Hcar.
  split; intros Hlt; rewrite Hcar.
  - apply lookup_resize; lia.
  - apply lookup_resize_new; lia.
Qed.

(** The second line of the carryover scenario: on the previous line
    00 00 AA AA the line 01 20 BB writes octet 4 only, and octet 2 stays
    0xAA. *)
Lemma carryover_witness :
  let st := State [x01; x20; xbb] [[0; 0; 170; 170]] [0; 0; 170; 170] 4 true 3 1030 [] in
  let st' := State [] [[0; 0; 170; 170]; [0; 0; 170; 170; 187]] [0; 0; 170; 170; 187]
               5 true 0 1030 [] in
  read_line get_next_block_character 1 st = Ok tt st'
  ∧ line st' !! 2%nat = line st !! 2%nat.
Proof.
  intros st st'. split; [reflexivity|].
  pose proof (carryover 1 st
    (State [x20; xbb] [[0; 0; 170; 170]] [0; 0; 170; 170] 4 true 2 1030 [])
    st' 1 ltac:(vm_compute; discriminate) eq_refl ltac:(discriminate) eq_refl) as Hc.
  destruct Hc as (_ & _ & _ & Hc).
  exact (proj1 (Hc 2%nat eq_refl) ltac:(simpl; lia)).
Defined.

(** ** The length bound *)

(** A line decode that succeeds keeps the buffer within the limit and
    appends the buffer to the page. *)
Lemma read_line_length fuel st st' :
  Z.of_nat (length (line st)) ≤ MAX_LINE_SIZE →
  read_line get_next_block_character fuel st = Ok tt st' →
  Z.of_nat (length (line st')) ≤ MAX_LINE_SIZE
  ∧ page st' = page st ++ [line st'].
Proof.
  intros Hlen Hline.
  assert (∃ n st1, get_next_block_character st = Ok n st1) as (n & st1 & Hfirst).
  { unfold read_line in Hline. apply bind_Ok in Hline as (n & st1 & ? & _). eauto. }
  destruct (fields_buffers _ _ _ _ block_char_buffers Hfirst) as (Hl1 & _ & Hp1).
  destruct (decide (n = 255)) as [->|Hne].
  - rewrite (read_line_first _ _ _ _ Hfirst) in Hline. simpl in Hline.
    injection Hline as <-. unfold MAX_LINE_SIZE. simpl.
    split; [lia|]. by rewrite Hp1.
  - destruct (read_line_edits fuel st st1 st' n Hlen Hfirst Hne Hline)
      as ([_ Hlen'] & _ & _ & Hpg' & _).
    done.
Qed.

Lemma read_line_page_ok fuel :
  keeps (λ _ st', page_ok st') any page_ok True
    (read_line get_next_block_character fuel).
Proof.
  intros st [Hlen Hpg].
  destruct (read_line get_next_block_character fuel st) as [[] st'| |] eqn:Hline;
    simpl; [|done..].
  destruct (read_line_length _ _ _ Hlen Hline) as [Hlen' Hpg'].
  split; [done|]. rewrite Hpg'. apply Forall_app. split; [done|].
  by apply Forall_singleton.
Qed.

Lemma read_block_page_ok fuel :
  keeps (λ _ st', page_ok st') any page_ok True
    (read_block get_next_block_character fuel).
Proof.
  unfold read_block.
  assert (keeps (λ _ st', page_ok st') any page_ok True get_next_block_character)
    as Hnext.
  { intros st Hok. pose proof (block_char_buffers st I) as Hb.
    destruct (get_next_block_character st); simpl in *; [|done..].
    destruct Hb as (Hl & _ & Hp). unfold page_ok. by rewrite Hl, Hp. }
  apply keeps_bind; [done..|]. intros c1.
  apply keeps_bind; [done..|]. intros c2.
  apply keeps_for_n; [done..|]. apply read_line_page_ok.
Qed.

Lemma read_page_loop_page_ok fuel n :
  keeps (λ _ st', page_ok st') any page_ok True (read_page_loop fuel n).
Proof.
  assert (keeps (λ _ st', page_ok st') any page_ok True getc) as Hgetc
    by by apply keeps_getc.
  apply keeps_read_page_loop_partial; try done.
  - apply read_block_page_ok.
  - by apply keeps_drain_partial.
Qed.

(** Every line of a page [read_page] returns is within the limit, and so
    is the buffer it leaves. *)
Lemma read_page_page_ok fuel st b st' :
  read_page fuel st = Ok b st' → page_ok st'.
Proof.
  unfold read_page. intros H.
  repeat (apply bind_Ok in H as ([] & ? & [= <-] & H)).
  apply bind_Ok in H as ([] & st1 & Hloop & H).
  apply bind_Ok in H as (pg & ? & [= <- <-] & [= <- <-]).
  match type of Hloop with read_page_loop _ _ ?s = _ =>
    pose proof (read_page_loop_page_ok fuel fuel s) as Hk end.
  rewrite Hloop in Hk. apply Hk.
  unfold page_ok, MAX_LINE_SIZE. simpl. split; [lia|done].
Qed.

(** C5.  Buffer growth.  With [e] the cursor plus offset plus count of an
    edit: if [e] is over the limit of 2000 octets the edit throws
    [line_overflow] (for a repeat edit once its data octet is read);
    otherwise the buffer is padded with zero octets to exactly [e] octets
    when [e] is past its length, and keeps its length if not.  Both edit
    kinds go through this check, and so a line decode that succeeds leaves
    a buffer of at most 2000 octets, as does every page [read_page]
    returns. *)
Theorem buffer_growth (fuel : nat) (st : state) :
  Z.of_nat (length (line st)) ≤ MAX_LINE_SIZE →
  (0 ≤ line_offset st ≤ Z.of_nat (length (line st)) →
   (∀ offset count, 0 ≤ offset < 65536 → 0 ≤ count < 65536 →
      let e := line_offset st + offset + count in
      (MAX_LINE_SIZE < e → grow_line offset count st = Throw line_overflow st)
      ∧ (e ≤ MAX_LINE_SIZE →
         grow_line offset count st
         = Ok tt (set_line (line st ++ replicate (Z.to_nat e - length (line st)) 0) st)
         ∧ (Z.of_nat (length (line st)) < e →
            length (line st ++ replicate (Z.to_nat e - length (line st)) 0)
            = Z.to_nat e)))
   ∧ (∀ cmd offset count data st1,
        repeat_fields get_next_block_character fuel cmd st
        = Ok (offset, count, data) st1 →
        MAX_LINE_SIZE < line_offset st + offset + count →
        read_repeat get_next_block_character fuel cmd st = Throw line_overflow st1)
   ∧ (∀ cmd offset count st1,
        substitute_fields get_next_block_character fuel cmd st
        = Ok (offset, count) st1 →
        MAX_LINE_SIZE < line_offset st + offset + count →
        read_substitute get_next_block_character fuel cmd st
        = Throw line_overflow st1)
   ∧ (∀ st', read_edit get_next_block_character fuel st = Ok tt st' →
        ∃ offset count st1,
          edit_fields get_next_block_character fuel st = Ok (offset, count) st1
          ∧ edit_effect offset count st st'
          ∧ Z.of_nat (length (line st')) ≤ MAX_LINE_SIZE))
  ∧ (∀ st', read_line get_next_block_character fuel st = Ok tt st' →
       Z.of_nat (length (line st')) ≤ MAX_LINE_SIZE)
  ∧ (∀ s b s', read_page fuel s = Ok b s' →
       Z.of_nat (length (line s')) ≤ MAX_LINE_SIZE
       ∧ Forall (λ l, Z.of_nat (length l) ≤ MAX_LINE_SIZE) (page s')).
Proof.
  intros Hlen. split_and!.
  - intros Hlo. assert (edit_ok st) as Hok by done. split_and!.
    + intros offset count Ho Hc e. rewrite grow_line_spec by done. fold e.
      split.
      * intros He. by destruct (Z.gtb_spec e MAX_LINE_SIZE); [|lia].
      * intros He. destruct (Z.gtb_spec e MAX_LINE_SIZE); [lia|].
        split; [done|]. intros Hgt. rewrite length_app, length_replicate. lia.
    + intros cmd offset count data st1 Hf He.
      rewrite read_repeat_split, (bind_eq _ _ _ _ _ Hf).
      pose proof (fields_buffers _ _ _ _
        (repeat_fields_buffers _ fuel block_char_buffers cmd) Hf) as Hb.
      apply (repeat_fields_range _ _ block_char_range) in Hf as (Ho & Hc & _).
      rewrite apply_repeat_spec; [|by eapply edit_ok_buffers|done..].
      destruct Hb as (_ & -> & _).
      by destruct (Z.gtb_spec (line_offset st + offset + count) MAX_LINE_SIZE);
        [|lia].
    + intros cmd offset count st1 Hf He.
      rewrite read_substitute_split, (bind_eq _ _ _ _ _ Hf).
      pose proof (fields_buffers _ _ _ _
        (substitute_fields_buffers _ fuel block_char_buffers cmd) Hf) as Hb.
      apply substitute_fields_range in Hf as (Ho & Hc).
      unfold apply_substitute, mbind, M_bind.
      rewrite grow_line_spec; [|by eapply edit_ok_buffers|done..].
      destruct Hb as (_ & -> & _).
      by destruct (Z.gtb_spec (line_offset st + offset + count) MAX_LINE_SIZE);
        [|lia].
    + intros st' He.
      destruct (read_edit_effect _ _ block_char_buffers block_char_range
                  _ _ Hok He) as (o & c & st1 & Hf & Ho & Hc & Heff).
      exists o, c, st1. split_and!; [done..|].
      destruct (edit_effect_ok o c st st') as ([_ ?] & _); [done|lia|lia|done|done].
  - intros st' Hline. by destruct (read_line_length _ _ _ Hlen Hline).
  - intros s b s' H. by apply read_page_page_ok in H.
Qed.

(** A repeat edit 0x9F with extension FF .. that ends past the limit,
    and its fields. *)
Lemma buffer_growth_witness :
  let st := State [xff; xff; xff; xff; xff; xff; xff; xff; x00; x07]
              [] [] 0 true 10 1030 [] in
  repeat_fields get_next_block_character 9 159 st
  = Ok (0, 2073, 7) (State [] [] [] 0 true 0 1030 [])
  ∧ read_repeat get_next_block_character 9 159 st
    = Throw line_overflow (State [] [] [] 0 true 0 1030 []).
Proof.
  intros st. split; [vm_compute; reflexivity|].
  pose proof (buffer_growth 9 st) as H.
  assert (Z.of_nat (length (line st)) ≤ MAX_LINE_SIZE) as H1
    by (vm_compute; discriminate).
  specialize (H H1). destruct H as [H _].
  assert (0 ≤ line_offset st ≤ Z.of_nat (length (line st))) as H2
    by (vm_compute; split; discriminate).
  specialize (H H2). destruct H as (_ & H & _).
  apply (H 159 0 2073 7).
  - vm_compute; reflexivity.
  - vm_compute; reflexivity.
Defined.

(** C8.  A line that starts with the octet 255 clears the previous-line
    buffer, reads nothing more, and appends an empty line to the page; the
    next line starts from the empty buffer.  A line that starts with any
    other octet [n] resets the cursor to zero, runs [read_edit] [n] times
    (each of them one written range, if the line succeeds) and appends a
    copy of the buffer; for [n = 0] that copy is the previous line. *)
Theorem read_line_cases (fuel : nat) (st : state) (b : byte) (rest : list byte) :
  in_file st = b :: rest → 0 < number st < 2 ^ 32 →
  let st1 := set_in_file rest (set_number (number st - 1) st) in
  (b = xff →
   read_line get_next_block_character fuel st
   = Ok tt (set_page (page st ++ [[]]) (set_line [] st1)))
  ∧ (b ≠ xff →
     read_line get_next_block_character fuel st
     = (for_n (Z.to_nat (byte_val b)) (read_edit get_next_block_character fuel);;
        modify (λ s, set_page (page s ++ [line s]) s)) (set_line_offset 0 st1)
     ∧ ∀ st', Z.of_nat (length (line st)) ≤ MAX_LINE_SIZE →
         read_line get_next_block_character fuel st = Ok tt st' →
         length (edit_spans get_next_block_character fuel
                   (Z.to_nat (byte_val b)) (set_line_offset 0 st1))
         = Z.to_nat (byte_val b)
         ∧ page st' = page st ++ [line st'])
  ∧ (b = x00 →
     read_line get_next_block_character fuel st
     = Ok tt (set_page (page st ++ [line st]) (set_line_offset 0 st1))).
Proof.
  intros Hin Hnum st1.
  pose proof (block_char_Ok _ _ _ Hin Hnum) as Hfirst. fold st1 in Hfirst.
  rewrite (read_line_first _ _ _ _ Hfirst).
  split_and!.
  - intros ->. done.
  - intros Hb.
    destruct (Z.eqb_spec (byte_val b) 255) as [E|Hne].
    { by apply byte_val_xff in E. }
    split; [done|].
    intros st' Hlen Hline.
    assert (read_line get_next_block_character fuel st = Ok tt st') as Hline'.
    { rewrite (read_line_first _ _ _ _ Hfirst).
      by destruct (Z.eqb_spec (byte_val b) 255). }
    destruct (read_line_edits fuel st st1 st' (byte_val b) Hlen Hfirst Hne Hline')
      as (_ & Hsp & _ & Hpg & _).
    done.
  - intros ->. done.
Qed.

Lemma read_line_cases_witness :
  read_line get_next_block_character 1
    (State [xff; x00] [[1; 2]] [1; 2] 2 true 2 1030 [])
  = Ok tt (State [x00] [[1; 2]; []] [] 2 true 1 1030 []).
Proof.
  exact (proj1 (read_line_cases 1 (State [xff; x00] [[1; 2]] [1; 2] 2 true 2 1030 [])
                  xff [x00] eq_refl ltac:(vm_compute; split; reflexivity)) eq_refl).
Defined.

(** ** Sixteen-bit fields *)

Lemma add_overflow_mod next_character fuel field st s st' :
  read_overflow next_character fuel st = Ok s st' →
  add_overflow next_character fuel field st = Ok ((field + s) mod 2 ^ 16) st'.
Proof.
  intros H. unfold add_overflow. rewrite (bind_eq _ _ _ _ _ H).
  unfold mret, M_ret. by rewrite u16_u32.
Qed.

(** C10.  Offset and count are [uint16_t]: the overflow extension is added
    modulo 2^16 in both edit kinds (shown on the commands 0xFF and 0x7F,
    whose two fields both take an extension).  With 258 octets 0xFF and a
    terminator 0x00 the extension is 65790: the repeat edit 0x9F then has
    count (31 + 65790) mod 65536 + 2 = 287 and writes 287 octets, and the
    substitute edit 0x78 has offset (15 + 65790) mod 65536 = 269 and writes
    its one octet at position 269; neither throws [line_overflow]. *)
Theorem fields_wrap (fuel : nat) (next_character : M Z)
    (st st1 st2 st3 : state) (s1 s2 data : Z) :
  read_overflow next_character fuel st = Ok s1 st1 →
  read_overflow next_character fuel st1 = Ok s2 st2 →
  next_character st2 = Ok data st3 →
  add_overflow next_character fuel 3 st = Ok ((3 + s1) mod 2 ^ 16) st1
  ∧ repeat_fields next_character fuel 255 st
    = Ok ((3 + s1) mod 2 ^ 16, ((31 + s2) mod 2 ^ 16 + 2) mod 2 ^ 16, data) st3
  ∧ substitute_fields next_character fuel 127 st
    = Ok ((15 + s1) mod 2 ^ 16, ((7 + s2) mod 2 ^ 16 + 1) mod 2 ^ 16) st2
  ∧ (∀ (f : nat) rest pg lo r fmt tr,
       read_overflow get_next_block_character (259 + f)
         (State (replicate 258 xff ++ x00 :: rest) pg [] lo r 259 fmt tr)
       = Ok 65790 (State rest pg [] lo r 0 fmt tr)
       ∧ read_repeat get_next_block_character (259 + f) 159
           (State (replicate 258 xff ++ [x00; xaa] ++ rest) pg [] 0 r 260 fmt tr)
         = Ok tt (State rest pg (replicate 287 170) 287 r 0 fmt tr)
       ∧ read_substitute get_next_block_character (259 + f) 120
           (State (replicate 258 xff ++ [x00; xbb] ++ rest) pg [] 0 r 260 fmt tr)
         = Ok tt (State rest pg (replicate 269 0 ++ [187]) 270 r 0 fmt tr)).
Proof.
  intros H1 H2 H3. split_and!.
  - by apply add_overflow_mod.
  - unfold repeat_fields. simpl.
    rewrite (bind_eq _ _ _ _ _ (add_overflow_mod _ _ _ _ _ _ H1)).
    rewrite (bind_eq _ _ _ _ _ (add_overflow_mod _ _ _ _ _ _ H2)).
    by rewrite (bind_eq _ _ _ _ _ H3).
  - unfold substitute_fields. simpl.
    rewrite (bind_eq _ _ _ _ _ (add_overflow_mod _ _ _ _ _ _ H1)).
    by rewrite (bind_eq _ _ _ _ _ (add_overflow_mod _ _ _ _ _ _ H2)).
  - intros f rest pg lo r fmt tr. split_and!; vm_compute; reflexivity.
Qed.

Lemma fields_wrap_witness :
  repeat_fields get_next_block_character 2 255
    (State [xff; x03; x04; x05] [] [] 0 true 4 1030 [])
  = Ok (261, 37, 5) (State [] [] [] 0 true 0 1030 []).
Proof.
  exact (proj1 (proj2 (fields_wrap 2 get_next_block_character
    (State [xff; x03; x04; x05] [] [] 0 true 4 1030 [])
    (State [x04; x05] [] [] 0 true 2 1030 [])
    (State [x05] [] [] 0 true 1 1030 [])
    (State [] [] [] 0 true 0 1030 [])
    258 4 5 eq_refl eq_refl eq_refl))).
Defined.

(** ** Block framing *)













(** ** The wrapper parser *)

Lemma same_mode_trans a b c : same_mode a b → same_mode b c → same_mode a c.
Proof. unfold same_mode. intros (?&?) (?&?). split; congruence. Qed.

Lemma block_char_mode :
  keeps same_mode same_mode (λ _, True) True get_next_block_character.
Proof.
  intros st _.
  destruct (block_char_cases st)
    as [[_ E]|[(_ & _ & E)|(_ & b & rest & _ & E)]]; rewrite E; by simpl.
Qed.

Lemma graphics_data_mode fuel :
  keeps same_mode same_mode (λ _, True) True (graphics_data fuel).
Proof.
  assert (keeps same_mode same_mode (λ _, True) True getc) as Hgetc
    by by apply keeps_getc.
  apply keeps_graphics_data; try done.
  - apply same_mode_trans.
  - apply same_mode_trans.
  - apply keeps_read_block; try done.
    + apply same_mode_trans.
    + apply same_mode_trans.
    + apply block_char_mode.
    + intros sum. apply keeps_overflow_partial; try done.
      * apply same_mode_trans.
      * apply same_mode_trans.
      * apply block_char_mode.
  - apply keeps_drain_partial; try done; apply same_mode_trans.
Qed.

(** In raster mode, a byte other than ESC runs the branch of its letter
    and then the branch of its class. *)
Lemma read_page_char_raster fuel ch st :
  ch ≠ 27 → in_raster st = true →
  read_page_char fuel ch st
  = ((if in_range 48 57 ch then
        modify (λ st, set_number (u32 (number st * 10 + u32 (ch - 48))) st)
      else if (ch =? 109) || (ch =? 77) then
        modify (λ st, set_format (int32 (number st)) st)
      else if (ch =? 119) || (ch =? 87) then graphics_data fuel
      else mret tt);;
     (if in_range 96 126 ch then modify (set_number 0)
      else if in_range 64 94 ch then modify (set_in_raster false)
      else mret tt)) st.
Proof.
  intros Hch Hr. unfold read_page_char.
  destruct (Z.eqb_spec ch 27); [done|].
  unfold gets, mbind at 1, M_bind at 1. by rewrite Hr.
Qed.

(** C1, as the code has it.  In raster mode the branch of the letter runs
    first and the branch of its class second.  The lowercase letters m and
    w are parameter characters: after the action [number] is 0 and the
    parser is still in raster mode.  The uppercase letters M and W are
    terminating characters: after the action the parser has left raster
    mode, and nothing resets [number]. *)
Theorem letter_then_class (fuel : nat) (st : state) :
  in_raster st = true →
  read_page_char fuel 109 st
  = Ok tt (set_number 0 (set_format (int32 (number st)) st))
  ∧ read_page_char fuel 77 st
    = Ok tt (set_in_raster false (set_format (int32 (number st)) st))
  ∧ read_page_char fuel 119 st
    = (graphics_data fuel;; modify (set_number 0)) st
  ∧ read_page_char fuel 87 st
    = (graphics_data fuel;; modify (set_in_raster false)) st
  ∧ (∀ st', read_page_char fuel 119 st = Ok tt st' →
       number st' = 0 ∧ in_raster st' = true)
  ∧ (∀ st', read_page_char fuel 87 st = Ok tt st' → in_raster st' = false).
Proof.
  intros Hr.
  rewrite !read_page_char_raster by done. split_and!; try done.
  - simpl. intros st' ([] & st1 & Hg & [= <-])%bind_Ok. simpl.
    pose proof (graphics_data_mode fuel st I) as Hm. rewrite Hg in Hm.
    destruct Hm as [Hm _]. split; [done|]. simpl in Hm. congruence.
  - simpl. intros st' ([] & st1 & Hg & [= <-])%bind_Ok. done.
Qed.

Lemma letter_then_class_witness :
  read_page_char 1 77 (State [] [] [] 0 true 1030 0 [])
  = Ok tt (State [] [] [] 0 false 1030 1030 []).
Proof.
  exact (proj1 (proj2 (letter_then_class 1 (State [] [] [] 0 true 1030 0 []) eq_refl))).
Defined.

(** The claim as written fails on M: raster mode is left and [number]
    keeps its value. *)
Lemma letter_reset_counterexample :
  ¬ (∀ (fuel : nat) (ch : Z) (st st' : state),
       ch = 109 ∨ ch = 77 ∨ ch = 119 ∨ ch = 87 →
       in_raster st = true →
       read_page_char fuel ch st = Ok tt st' →
       number st' = 0 ∧ in_raster st' = true).
Proof.
  intros H.
  destruct (H 1%nat 77 (State [] [] [] 0 true 1030 0 [])
              (State [] [] [] 0 false 1030 1030 [])) as [Hn _];
    [by right; left|done|done|].
  discriminate Hn.
Qed.

(** ** Unsupported compression *)

(** C2, as the code has it.  A graphics-data letter met in raster mode
    with [format] other than 1030 throws [unsupported_compression] with
    that format code, before any octet of the block is read.  The stream
    1B 2A 62 30 57 00 00 0C, whose format is still the initial 0, therefore
    fails with [unsupported_compression 0]. *)
Theorem unsupported_format (fuel : nat) (st : state) (ch : Z) :
  in_raster st = true → format st ≠ 1030 → ch = 119 ∨ ch = 87 →
  read_page_char fuel ch st = Throw (unsupported_compression (format st)) st
  ∧ run_page (start [x1b; x2a; x62; x30; x57; x00; x00; x0c])
    = Throw (unsupported_compression 0) (State [x00; x00; x0c] [] [] 0 true 0 0 [])
  ∧ ∀ f, read_page (3 + f) (start [x1b; x2a; x62; x30; x57; x00; x00; x0c])
         = Throw (unsupported_compression 0) (State [x00; x00; x0c] [] [] 0 true 0 0 []).
Proof.
  intros Hr Hf Hch. split_and!.
  - rewrite read_page_char_raster; [|lia|done].
    assert (graphics_data fuel st = Throw (unsupported_compression (format st)) st)
      as Hg.
    { unfold graphics_data, gets, mbind, M_bind.
      by destruct (Z.eqb_spec (format st) 1030). }
    destruct Hch as [-> | ->]; simpl; by rewrite (bind_throw_eq _ _ _ _ _ Hg).
  - vm_compute. reflexivity.
  - intros f. vm_compute. reflexivity.
Qed.

Lemma unsupported_format_witness :
  read_page_char 1 87 (State [x00; x00; x0c] [] [] 0 true 0 0 [])
  = Throw (unsupported_compression 0) (State [x00; x00; x0c] [] [] 0 true 0 0 []).
Proof.
  exact (proj1 (unsupported_format 1 (State [x00; x00; x0c] [] [] 0 true 0 0 []) 87
                  eq_refl ltac:(discriminate) (or_intror eq_refl))).
Defined.

(** The scenario as written (the stream decodes to a page with no lines)
    fails: the run ends in an exception. *)
Lemma empty_page_scenario_counterexample :
  ¬ ∃ st', run_page (start [x1b; x2a; x62; x30; x57; x00; x00; x0c]) = Ok false st'
           ∧ page st' = [].
Proof. intros (st' & H & _). vm_compute in H. discriminate H. Qed.

(** ** Pages and the driver *)

Lemma read_page_reports fuel st b st' :
  read_page fuel st = Ok b st' → (b = true ↔ page st' ≠ []).
Proof.
  unfold read_page. intros H.
  repeat (apply bind_Ok in H as ([] & ? & [= <-] & H)).
  apply bind_Ok in H as ([] & st1 & Hloop & H).
  apply bind_Ok in H as (pg & ? & [= <- <-] & [= <- <-]).
  by destruct (page st1).
Qed.

(** The claim as written fails: [read_page] reports no page, and the
    driver stops, at a form-feed with octets still to come.  A stream with
    one raster page is written out; behind a leading form-feed, or behind
    two form-feeds in a row, the same page is never read. *)
Lemma read_page_stops_counterexample :
  (¬ ∀ input b st',
       run_page (start input) = Ok b st' → b = false → in_file st' = [])
  ∧ (¬ ∀ input st', run_main input = Ok tt st' → in_file st' = [])
  ∧ run_main [x1b; x2a; x62; x31; x30; x33; x30; x6d; x33; x77;
              x00; x01; x00; x0c]
    = Ok tt (State [] [] [] 0 false 0 0 [wrote_page [[]]])
  ∧ run_main [x0c; x1b; x2a; x62; x31; x30; x33; x30; x6d; x33; x77;
              x00; x01; x00; x0c]
    = Ok tt (State [x1b; x2a; x62; x31; x30; x33; x30; x6d; x33; x77;
                    x00; x01; x00; x0c] [] [] 0 false 0 0 [])
  ∧ run_main [x1b; x2a; x62; x31; x30; x33; x30; x6d; x33; x77;
              x00; x01; x00; x0c; x0c;
              x1b; x2a; x62; x31; x30; x33; x30; x6d; x33; x77;
              x00; x01; x00; x0c]
    = Ok tt (State [x1b; x2a; x62; x31; x30; x33; x30; x6d; x33; x77;
                    x00; x01; x00; x0c] [] [] 0 false 0 0 [wrote_page [[]]]).
Proof.
  split_and!.
  - intros H. by specialize (H [x0c; x41] false (State [x41] [] [] 0 false 0 0 [])
                               eq_refl eq_refl).
  - intros H. by specialize (H [x0c; x41] (State [x41] [] [] 0 false 0 0 []) eq_refl).
  - vm_compute. reflexivity.
  - vm_compute. reflexivity.
  - vm_compute. reflexivity.
Qed.

(** ** Fuel

    Every round of every unbounded loop takes an octet from the file, so
    fuel above the length of the file is never used up: the program
    terminates, with a value or an exception. *)

Lemma shorter_refl st : shorter st st.
Proof. unfold shorter. lia. Qed.

Lemma shorter_trans a b c : shorter a b → shorter b c → shorter a c.
Proof. unfold shorter. lia. Qed.

Lemma fits_shorter fuel a b : fits fuel a → shorter a b → fits fuel b.
Proof. unfold fits, shorter. lia. Qed.

Lemma block_char_total fuel :
  keeps shorter any (fits fuel) False get_next_block_character.
Proof.
  intros st _.
  destruct (block_char_cases st)
    as [[_ E]|[(_ & _ & E)|(_ & b & rest & Hin & E)]]; rewrite E; simpl; [done..|].
  unfold shorter. simpl. rewrite Hin. simpl. lia.
Qed.

Lemma getc_total fuel : keeps shorter any (fits fuel) False getc.
Proof.
  intros st _. unfold getc, shorter.
  destruct (in_file st) eqn:E; simpl; rewrite ?E; simpl; lia.
Qed.

Lemma read_overflow_loop_total n : ∀ sum st,
  (length (in_file st) < n)%nat →
  post (λ _ st', shorter st st') (λ _ st', any st st') False
    (read_overflow_loop get_next_block_character n sum st).
Proof.
  induction n as [|n IH]; intros sum st Hn; [lia|]. simpl.
  apply post_bind.
  pose proof (block_char_total 1 st) as Htot.
  destruct (get_next_block_character st) as [ch st1| |] eqn:E; simpl; [|done|].
  - pose proof (block_char_shorter _ _ _ E) as Hs.
    destruct (ch =? 255); [|unfold shorter; simpl; lia].
    assert (length (in_file st1) < n)%nat as Hn1 by lia.
    specialize (IH (u32 (sum + ch)) st1 Hn1).
    eapply post_mono; [exact IH|..]; [|done].
    intros a st2 H2. unfold shorter in *. lia.
  - exfalso. destruct (block_char_cases st)
      as [[_ E']|[(_ & _ & E')|(_ & b & rest & Hin & E')]]; congruence.
Qed.

Lemma read_block_total fuel :
  keeps shorter any (fits fuel) False (read_block get_next_block_character fuel).
Proof.
  apply keeps_read_block; try done.
  - intros st _. apply shorter_refl.
  - apply shorter_trans.
  - apply fits_shorter.
  - apply block_char_total.
  - intros sum st Hfit. by apply read_overflow_loop_total.
  - intros v st _. unfold shorter. simpl. lia.
  - intros v st _. unfold shorter. simpl. lia.
  - intros v st _. unfold shorter. simpl. lia.
Qed.

Lemma drain_total n : ∀ st,
  (length (in_file st) < n)%nat →
  post (λ _ st', shorter st st') (λ _ st', any st st') False (drain n st).
Proof.
  induction n as [|n IH]; intros st Hn; [lia|]. simpl.
  unfold gets, mbind at 1, M_bind at 1.
  destruct (number st >? 0); [|apply shorter_refl].
  destruct (in_file st) as [|b rest] eqn:Hin.
  - by rewrite (bind_throw_eq _ _ _ _ _ (get_eof _ Hin)).
  - rewrite (bind_eq _ _ _ _ _ (get_Ok _ _ _ Hin)).
    unfold modify, mbind, M_bind.
    match goal with |- post _ _ _ (drain n ?s) =>
      assert (length (in_file s) < n)%nat as Hn1 by (simpl in *; lia);
      pose proof (IH s Hn1) as IH1;
      assert (shorter st s) as Hs by (unfold shorter; simpl; rewrite Hin; simpl; lia)
    end.
    eapply post_mono; [exact IH1|..]; [|done].
    intros a st2 H2. eapply shorter_trans; [exact Hs|exact H2].
Qed.

Lemma read_page_char_total fuel ch :
  keeps shorter any (fits fuel) False (read_page_char fuel ch).
Proof.
  apply keeps_read_page_char; try done.
  - intros st _. apply shorter_refl.
  - apply shorter_trans.
  - apply fits_shorter.
  - apply getc_total.
  - intros v st _. unfold shorter. simpl. lia.
  - intros v st _. unfold shorter. simpl. lia.
  - intros v st _. unfold shorter. simpl. lia.
  - intros v st _. unfold shorter. simpl. lia.
  - apply read_block_total.
  - intros st Hfit. by apply drain_total.
Qed.

Lemma read_page_loop_total fuel n : ∀ st,
  (length (in_file st) < n)%nat → fits fuel st →
  post (λ _ st', (in_file st = [] ∧ st' = st)
                 ∨ (length (in_file st') < length (in_file st))%nat)
       (λ _ st', any st st') False
       (read_page_loop fuel n st).
Proof.
  induction n as [|n IH]; intros st Hn Hfit; [lia|]. simpl.
  unfold getc, mbind at 1, M_bind at 1.
  destruct (in_file st) as [|b rest] eqn:Hin; simpl.
  { by left. }
  pose proof (byte_val_range b) as Hb.
  destruct (Z.geb_spec (byte_val b) 0); [|lia].
  destruct (byte_val b =? 12); simpl.
  { right. lia. }
  apply post_bind.
  assert (fits fuel (set_in_file rest st)) as Hfit1.
  { unfold fits in *. simpl in *. rewrite Hin in Hfit. simpl in Hfit. lia. }
  pose proof (read_page_char_total fuel (byte_val b) _ Hfit1) as Hc.
  destruct (read_page_char fuel (byte_val b) (set_in_file rest st))
    as [[] st2| |]; simpl in *; [|done..].
  unfold shorter in Hc. simpl in Hc.
  assert (length (in_file st2) < n)%nat as Hn2 by lia.
  specialize (IH st2 Hn2 (fits_shorter _ _ _ Hfit1 Hc)).
  eapply post_mono; [exact IH|..]; [|done].
  intros _ st3 [[E ->]|H3]; right; lia.
Qed.

Lemma read_page_total fuel st :
  fits fuel st →
  post (λ b st', shorter st st'
                 ∧ (b = true → (length (in_file st') < length (in_file st))%nat))
       (λ _ st', any st st') False
       (read_page fuel st).
Proof.
  intros Hfit. unfold read_page, modify, mbind at 1 2 3 4, M_bind at 1 2 3 4.
  apply post_bind.
  match goal with |- post _ _ _ (read_page_loop _ _ ?s) =>
    pose proof (read_page_loop_total fuel fuel s Hfit Hfit) as Hl;
    destruct (read_page_loop fuel fuel s) as [[] st1| |]; simpl in *; [|done..]
  end.
  destruct Hl as [[Hin ->]|Hlt]; simpl.
  - unfold shorter. simpl. split; [lia|done].
  - unfold shorter. split; [lia|]. intros _. lia.
Qed.

Lemma main_loop_total fuel n : ∀ st,
  (length (in_file st) < n)%nat → fits fuel st →
  post (λ _ st', shorter st st') (λ _ st', any st st') False
    (main_loop fuel n st).
Proof.
  induction n as [|n IH]; intros st Hn Hfit; [lia|]. simpl.
  apply post_bind. pose proof (read_page_total fuel st Hfit) as Hp.
  destruct (read_page fuel st) as [b st1| |]; simpl in *; [|done..].
  destruct Hp as [Hs Hlt]. destruct b; [|done].
  unfold write_pnm, modify, mbind, M_bind.
  specialize (Hlt eq_refl).
  match goal with |- post _ _ _ (main_loop fuel n ?s) =>
    assert (length (in_file s) < n)%nat as Hn1 by (simpl; lia);
    assert (fits fuel s) as Hf1 by (unfold fits in *; simpl; lia);
    pose proof (IH s Hn1 Hf1) as IH1
  end.
  eapply post_mono; [exact IH1|..]; [|done].
  intros ? st2 H2. unfold shorter in *. simpl in *. lia.
Qed.

(** *** More fuel changes nothing *)

Lemma below_refl {A} (m : M A) : below m m.
Proof. intros st. by right. Qed.

Lemma below_out_of_fuel {A} (m : M A) : below out_of_fuel m.
Proof. intros st. by left. Qed.

Lemma below_bind {A B} (m m' : M A) (k k' : A → M B) :
  below m m' → (∀ a, below (k a) (k' a)) → below (m ≫= k) (m' ≫= k').
Proof.
  intros Hm Hk st. unfold mbind, M_bind.
  destruct (Hm st) as [E|E]; rewrite E; [by left|].
  destruct (m' st) as [a st1| |]; [apply Hk|by right|by left].
Qed.

Lemma below_if {A} (b : bool) (m1 m1' m2 m2' : M A) :
  below m1 m1' → below m2 m2' →
  below (if b then m1 else m2) (if b then m1' else m2').
Proof. by destruct b. Qed.

Lemma below_for_n n body body' :
  below body body' → below (for_n n body) (for_n n body').
Proof.
  intros Hb. induction n as [|n IH]; simpl.
  - apply below_refl.
  - apply below_bind; [done|]. by intros _.
Qed.

Section MoreFuel.
Variable next_character : M Z.
Variables fuel fuel' : nat.
Hypothesis fuel_le : (fuel ≤ fuel')%nat.

Ltac below_auto :=
  repeat first
    [ apply below_refl
    | match goal with H : _ |- _ => apply H end
    | apply below_bind; [|intros ?]
    | apply below_if
    | apply below_for_n ].

Lemma read_overflow_loop_below n : ∀ n' sum,
  (n ≤ n')%nat →
  below (read_overflow_loop next_character n sum)
        (read_overflow_loop next_character n' sum).
Proof.
  induction n as [|n IH]; intros n' sum Hn; simpl.
  - apply below_out_of_fuel.
  - destruct n' as [|n']; [lia|]. simpl.
    apply below_bind; [apply below_refl|]. intros ch.
    apply below_if; [|apply below_refl]. apply IH. lia.
Qed.

Lemma add_overflow_below field :
  below (add_overflow next_character fuel field)
        (add_overflow next_character fuel' field).
Proof.
  unfold add_overflow, read_overflow.
  apply below_bind; [by apply read_overflow_loop_below|]. intros s.
  apply below_refl.
Qed.

Lemma read_repeat_below cmd :
  below (read_repeat next_character fuel cmd)
        (read_repeat next_character fuel' cmd).
Proof.
  pose proof add_overflow_below. unfold read_repeat. below_auto.
Qed.

Lemma read_substitute_below cmd :
  below (read_substitute next_character fuel cmd)
        (read_substitute next_character fuel' cmd).
Proof.
  pose proof add_overflow_below. unfold read_substitute. below_auto.
Qed.

Lemma read_edit_below :
  below (read_edit next_character fuel) (read_edit next_character fuel').
Proof.
  unfold read_edit. apply below_bind; [apply below_refl|]. intros c.
  apply below_if; [apply read_repeat_below|apply read_substitute_below].
Qed.

Lemma read_line_below :
  below (read_line next_character fuel) (read_line next_character fuel').
Proof.
  pose proof read_edit_below. unfold read_line. below_auto.
Qed.

Lemma read_block_below :
  below (read_block next_character fuel) (read_block next_character fuel').
Proof.
  pose proof read_line_below. unfold read_block. below_auto.
Qed.
End MoreFuel.

Lemma drain_below n : ∀ n', (n ≤ n')%nat → below (drain n) (drain n').
Proof.
  induction n as [|n IH]; intros n' Hn; simpl.
  - apply below_out_of_fuel.
  - destruct n' as [|n']; [lia|]. simpl.
    apply below_bind; [apply below_refl|]. intros k.
    apply below_if; [|apply below_refl].
    apply below_bind; [apply below_refl|]. intros _.
    apply below_bind; [apply below_refl|]. intros _.
    apply IH. lia.
Qed.

Lemma graphics_data_below fuel fuel' :
  (fuel ≤ fuel')%nat → below (graphics_data fuel) (graphics_data fuel').
Proof.
  intros Hle. unfold graphics_data.
  apply below_bind; [apply below_refl|]. intros f.
  apply below_bind.
  { apply below_if; [by apply read_block_below|apply below_refl]. }
  intros _. apply below_bind; [apply below_refl|]. intros k.
  apply below_if; [|apply below_refl].
  apply below_bind; [apply below_refl|]. intros _. by apply drain_below.
Qed.

Lemma read_page_char_below fuel fuel' ch :
  (fuel ≤ fuel')%nat → below (read_page_char fuel ch) (read_page_char fuel' ch).
Proof.
  intros Hle. unfold read_page_char.
  apply below_if; [apply below_refl|].
  apply below_bind; [apply below_refl|]. intros r.
  apply below_if; [|apply below_refl].
  apply below_bind; [|intros _; apply below_refl].
  repeat apply below_if; try apply below_refl. by apply graphics_data_below.
Qed.

Lemma read_page_loop_below fuel fuel' n : ∀ n',
  (fuel ≤ fuel')%nat → (n ≤ n')%nat →
  below (read_page_loop fuel n) (read_page_loop fuel' n').
Proof.
  induction n as [|n IH]; intros n' Hle Hn; simpl.
  - apply below_out_of_fuel.
  - destruct n' as [|n']; [lia|]. simpl.
    apply below_bind; [apply below_refl|]. intros ch.
    repeat apply below_if; try apply below_refl.
    apply below_bind; [by apply read_page_char_below|]. intros _.
    apply IH; [done|lia].
Qed.

Lemma read_page_below fuel fuel' :
  (fuel ≤ fuel')%nat → below (read_page fuel) (read_page fuel').
Proof.
  intros Hle. unfold read_page.
  repeat (apply below_bind; [apply below_refl|]; intros _).
  apply below_bind; [by apply read_page_loop_below|]. intros _.
  apply below_refl.
Qed.

Lemma main_loop_below fuel fuel' n : ∀ n',
  (fuel ≤ fuel')%nat → (n ≤ n')%nat →
  below (main_loop fuel n) (main_loop fuel' n').
Proof.
  induction n as [|n IH]; intros n' Hle Hn; simpl.
  - apply below_out_of_fuel.
  - destruct n' as [|n']; [lia|]. simpl.
    apply below_bind; [by apply read_page_below|]. intros more.
    apply below_if; [|apply below_refl].
    apply below_bind; [apply below_refl|]. intros _. apply IH; [done|lia].
Qed.

(** The program terminates on every input: a page run and the whole run
    end with a value or an exception, never for want of fuel. *)
Theorem run_total (st : state) (input : list byte) :
  run_page st ≠ OutOfFuel ∧ run_main input ≠ OutOfFuel.
Proof.
  split.
  - pose proof (read_page_total (enough st) st) as H. unfold run_page.
    destruct (read_page (enough st) st); [done..|].
    intros _. apply H. unfold fits, enough. lia.
  - pose proof (main_loop_total (S (length input)) (S (length input)) (start input))
      as H. unfold run_main.
    destruct (main_loop (S (length input)) (S (length input)) (start input));
      [done..|].
    intros _. apply H; unfold fits; simpl; lia.
Qed.

(** Any larger fuel gives the same outcome: [run_page] and [run_main] are
    what the program does. *)
Theorem run_any_fuel (st : state) (input : list byte) (fuel n : nat) :
  (enough st ≤ fuel)%nat →
  (S (length input) ≤ fuel)%nat → (S (length input) ≤ n)%nat →
  read_page fuel st = run_page st
  ∧ main_loop fuel n (start input) = run_main input.
Proof.
  intros H1 H2 H3. split.
  - destruct (read_page_below (enough st) fuel H1 st) as [E|E]; [|done].
    by destruct (proj1 (run_total st input)).
  - destruct (main_loop_below _ fuel _ n H2 H3 (start input)) as [E|E]; [|done].
    by destruct (proj2 (run_total st input)).
Qed.

(** * Further properties *)

(** ** The bitmap writer *)

Lemma pnm_width_fold (p : list (list Z)) : ∀ w,
  0 ≤ w →
  fold_left (λ width l, Z.max width (Z.of_nat (length l))) p w
  = Z.max w (Z.of_nat (max_list (length <$> p))).
Proof.
  induction p as [|l p IH]; intros w Hw; cbn [fold_left].
  - simpl. lia.
  - rewrite IH by lia. rewrite fmap_cons.
    change (max_list (length l :: (length <$> p)))
      with (length l `max` max_list (length <$> p))%nat.
    lia.
Qed.

Lemma pnm_width_max (p : list (list Z)) : pnm_width p = Z.of_nat (max_list (length <$> p)).
Proof. unfold pnm_width. rewrite pnm_width_fold by lia. lia. Qed.

Lemma max_list_length_le (p : list (list Z)) l :
  l ∈ p → (length l ≤ max_list (length <$> p))%nat.
Proof.
  intros Hl. apply max_list_elem_of_le. apply list_elem_of_fmap. eauto.
Qed.

Lemma max_list_length_elem (p : list (list Z)) :
  p ≠ [] → ∃ l, l ∈ p ∧ length l = max_list (length <$> p).
Proof.
  intros Hne. assert (length <$> p ≠ []) as Hne' by by destruct p.
  apply max_list_elem_of in Hne'.
  apply list_elem_of_fmap in Hne' as (l & E & Hl). eauto.
Qed.

Lemma max_list_length_bound (p : list (list Z)) (Q : nat → Prop) :
  Q 0%nat → Forall (λ l, Q (length l)) p → Q (max_list (length <$> p)).
Proof.
  intros H0 Hall. destruct (decide (p = [])) as [->|Hne]; [done|].
  destruct (max_list_length_elem p Hne) as (l & Hl & <-).
  rewrite Forall_forall in Hall. by apply Hall.
Qed.

(** The file is the header followed by the lines, each padded with zero
    octets to the width. *)
Lemma write_pnm_file_rows (p : list (list Z)) :
  Forall (λ l, Z.of_nat (length l) < 2 ^ 64) p →
  write_pnm_file p
  = octets (pnm_header p)
    ++ mjoin (resize (max_list (length <$> p)) 0 <$> p).
Proof.
  intros Hsz. unfold write_pnm_file. rewrite pnm_width_max, Nat2Z.id.
  set (w := max_list (length <$> p)).
  assert (Z.of_nat w < 2 ^ 64) as Hw.
  { apply (max_list_length_bound p (λ n, Z.of_nat n < 2 ^ 64)); [simpl; lia|done]. }
  assert (Forall (λ l, (length l ≤ w)%nat) p) as Hle.
  { apply Forall_forall. intros l Hl. by apply max_list_length_le. }
  generalize (octets (pnm_header p)). clearbody w.
  clear Hsz. induction Hle as [|l p Hl Hle IH]; intros f; simpl.
  - by rewrite app_nil_r.
  - rewrite IH. unfold fwrite.
    rewrite size_t_small by lia.
    rewrite firstn_all, take_replicate, <- !(assoc_L (++)).
    rewrite resize_ge by done. rewrite <- (assoc_L (++)).
    do 3 f_equal. f_equal. lia.
Qed.

(** X1.  [write_pnm] writes, after the header, one row of exactly
    [width] octets per line: the octets of the line, then zero octets. *)
Theorem pnm_rows (p : list (list Z)) :
  Forall (λ l, Z.of_nat (length l) < 2 ^ 64) p →
  let w := max_list (length <$> p) in
  let hdr := octets (pnm_header p) in
  length (write_pnm_file p) = (length hdr + length p * w)%nat
  ∧ take (length hdr) (write_pnm_file p) = hdr
  ∧ ∀ (i j : nat) (l : list Z), p !! i = Some l → (j < w)%nat →
      write_pnm_file p !! (length hdr + (i * w + j))%nat
      = if decide (j < length l)%nat then l !! j else Some 0.
Proof.
  intros Hsz w hdr. rewrite write_pnm_file_rows by done. fold w hdr.
  assert (Forall (λ r : list Z, length r = w) (resize w 0 <$> p)) as Hrows.
  { apply Forall_fmap, Forall_true. intros l. apply length_resize. }
  split_and!.
  - rewrite length_app, length_join, (sum_list_fmap_same w).
    + by rewrite length_fmap.
    + apply Forall_fmap, Forall_true. intros l. simpl. apply length_resize.
  - by rewrite take_app_length.
  - intros i j l Hi Hj. rewrite lookup_app_r by lia.
    replace (length hdr + (i * w + j) - length hdr)%nat with (i * w + j)%nat by lia.
    destruct (resize w 0 l !! j) as [x|] eqn:Hx.
    2: { apply lookup_ge_None in Hx. rewrite length_resize in Hx. lia. }
    assert (mjoin (resize w 0 <$> p) !! (i * w + j)%nat = Some x) as ->.
    { apply (join_lookup_Some_same_length' w); [done..|].
      exists (resize w 0 l). split; [|done].
      by rewrite list_lookup_fmap, Hi. }
    rewrite <- Hx. case_decide.
    + apply lookup_resize; lia.
    + apply lookup_resize_new; lia.
Qed.

Lemma pnm_rows_witness :
  let p : list (list Z) := [[255; 1]; [7]] in
  write_pnm_file p !! (length (octets (pnm_header p)) + (1 * 2 + 1))%nat = Some 0.
Proof.
  intros p.
  assert (Forall (λ l : list Z, Z.of_nat (length l) < 2 ^ 64) p) as H.
  { repeat constructor. }
  destruct (pnm_rows p H) as (_ & _ & Hrow).
  exact (Hrow 1%nat 1%nat [7] eq_refl ltac:(vm_compute; lia)).
Defined.

(** X2.  The width [write_pnm] computes is the length of the longest line
    (zero for no lines): no line is longer, and some line has that length.
    For a page within the line limit the header reads P4, eight times that
    width, the number of lines. *)
Theorem pnm_width_header (p : list (list Z)) :
  pnm_width p = Z.of_nat (max_list (length <$> p))
  ∧ Forall (λ l, Z.of_nat (length l) ≤ pnm_width p) p
  ∧ (p ≠ [] → ∃ l, l ∈ p ∧ Z.of_nat (length l) = pnm_width p)
  ∧ (Forall (λ l, Z.of_nat (length l) ≤ MAX_LINE_SIZE) p →
     Z.of_nat (length p) < 2 ^ 63 →
     pnm_width p ≤ MAX_LINE_SIZE
     ∧ pnm_header p
       = "P4 " +:+ pretty (8 * Z.of_nat (max_list (length <$> p))) +:+ " "
               +:+ pretty (Z.of_nat (length p))
               +:+ String (Ascii.ascii_of_nat 10) "").
Proof.
  rewrite pnm_width_max. split_and!.
  - done.
  - apply Forall_forall. intros l Hl. apply max_list_length_le in Hl. lia.
  - intros Hne. destruct (max_list_length_elem p Hne) as (l & Hl & E).
    exists l. split; [done|lia].
  - intros Hmax Hh.
    assert (Z.of_nat (max_list (length <$> p)) ≤ MAX_LINE_SIZE) as Hw.
    { apply (max_list_length_bound p (λ n, Z.of_nat n ≤ MAX_LINE_SIZE)); [|done].
      unfold MAX_LINE_SIZE. simpl. lia. }
    split; [done|]. unfold pnm_header. rewrite pnm_width_max.
    unfold MAX_LINE_SIZE in Hw.
    rewrite size_t_small by lia.
    assert (∀ z, 0 ≤ z < 2 ^ 63 → ssize z = z) as Hs.
    { intros z Hz. unfold ssize. rewrite Z.mod_small by lia.
      destruct (Z.ltb_spec z (2 ^ 63)); lia. }
    rewrite !Hs by lia. do 3 f_equal. lia.
Qed.

Lemma pnm_width_header_witness :
  pnm_width [[1; 2]; [3]] = 2
  ∧ pnm_header [[1; 2]; [3]]
    = "P4 16 2" +:+ String (Ascii.ascii_of_nat 10) "".
Proof.
  destruct (pnm_width_header [[1; 2]; [3]]) as (Hw & _ & _ & Hh).
  split; [exact Hw|].
  apply Hh.
  - repeat constructor; unfold MAX_LINE_SIZE; simpl; lia.
  - simpl. lia.
Defined.

(** ** What the edits write *)

(** X3.  Within a line the write cursor never moves backwards and the
    written ranges of the edits follow one another without overlap: each
    starts at or after the end of the one before, the cursor ends at the
    end of the last one, inside the line. *)
Theorem spans_ordered (fuel n : nat) (st st' : state) :
  edit_ok st →
  for_n n (read_edit get_next_block_character fuel) st = Ok tt st' →
  spans_from (line_offset st) (edit_spans get_next_block_character fuel n st)
             (line_offset st')
  ∧ line_offset st ≤ line_offset st' ≤ Z.of_nat (length (line st')).
Proof.
  revert st. induction n as [|n IH]; intros st Hok; simpl.
  - intros [= <-]. simpl. destruct Hok as [? _]. lia.
  - intros ([] & st1 & He & Hrest)%bind_Ok.
    destruct (read_edit_effect _ _ block_char_buffers block_char_range
                _ _ Hok He) as (o & c & st0 & Hf & Ho & Hc & Heff).
    destruct (edit_effect_ok o c st st1) as (Hok1 & _ & Hlo1); [done|lia|lia|done|].
    destruct (IH _ Hok1 Hrest) as (Hsp & Hlo').
    rewrite (edit_span_fields _ _ _ _ _ _ Hf), He. simpl.
    destruct Heff as (_ & E & _). rewrite E in Hsp, Hlo'.
    split_and!; [lia|lia|done|lia|lia].
Qed.

Lemma spans_ordered_witness :
  let st := State [xc0; xaa; x20; xbb] [] [] 0 true 4 1030 [] in
  spans_from 0 (edit_spans get_next_block_character 1 2 st) 9.
Proof.
  intros st.
  assert (edit_ok st) as Hok by (vm_compute; repeat split; discriminate).
  exact (proj1 (spans_ordered 1 2 st
                  (State [] [] [0; 0; 170; 170; 0; 0; 0; 0; 187] 9 true 0 1030 [])
                  Hok eq_refl)).
Defined.

(** X4.  A repeat edit that succeeds leaves its data octet at every
    position of its written range, and reads nothing after that octet. *)
Theorem repeat_writes (fuel : nat) (cmd : Z) (st st' : state) :
  edit_ok st →
  read_repeat get_next_block_character fuel cmd st = Ok tt st' →
  ∃ offset count data st1,
    repeat_fields get_next_block_character fuel cmd st
    = Ok (offset, count, data) st1
    ∧ in_file st' = in_file st1
    ∧ line_offset st' = line_offset st + offset + count
    ∧ ∀ j : nat, (j < Z.to_nat count)%nat →
        line st' !! (Z.to_nat (line_offset st + offset) + j)%nat = Some data.
Proof.
  intros Hok H. rewrite read_repeat_split in H.
  apply bind_Ok in H as ([[o c] d] & st1 & Hf & H).
  exists o, c, d, st1. split; [done|].
  pose proof (fields_buffers _ _ _ _
    (repeat_fields_buffers _ fuel block_char_buffers cmd) Hf) as Hb.
  apply (repeat_fields_range _ _ block_char_range) in Hf as (Ho & Hc & _).
  pose proof (edit_ok_buffers _ _ Hb Hok) as Hok1.
  rewrite apply_repeat_spec in H by done.
  destruct Hb as (Hl & Hlo & _). rewrite Hlo, Hl in H.
  destruct (Z.gtb_spec (line_offset st + o + c) MAX_LINE_SIZE) as [|Hle]; [done|].
  injection H as <-. simpl. split_and!; [done..|].
  intros j Hj. destruct Hok as [Hcur Hlen].
  rewrite list_lookup_inserts.
  - apply lookup_replicate_2. lia.
  - rewrite length_replicate. lia.
  - rewrite length_app, length_replicate. lia.
Qed.

Lemma repeat_writes_witness :
  let st := State [xff] [] [] 0 true 1 1030 [] in
  let st' := State [] [] [255; 255; 255; 255] 4 true 0 1030 [] in
  read_repeat get_next_block_character 1 130 st = Ok tt st'
  ∧ line st' !! 3%nat = Some 255.
Proof.
  intros st st'. split; [reflexivity|].
  assert (edit_ok st) as Hok by (vm_compute; repeat split; discriminate).
  destruct (repeat_writes 1 130 st st' Hok eq_refl)
    as (o & c & d & st1 & Hf & _ & _ & Hw).
  injection Hf as <- <- <- <-.
  exact (Hw 3%nat ltac:(vm_compute; lia)).
Defined.

(** The block reader, called [count] times by [generate_n], stores the
    next [count] octets of the file in order. *)
Lemma generate_n_block count : ∀ i st st',
  generate_n get_next_block_character i count st = Ok tt st' →
  ∃ bs, length bs = count
        ∧ in_file st = bs ++ in_file st'
        ∧ line st' = list_inserts i (byte_val <$> bs) (line st)
        ∧ line_offset st' = line_offset st.
Proof.
  induction count as [|count IH]; intros i st st'; simpl.
  - intros [= <-]. by exists [].
  - intros (v & st1 & Hv & H)%bind_Ok.
    apply bind_Ok in H as ([] & st2 & [= <-] & H).
    apply IH in H as (bs & Hlen & Hin & Hl & Hlo). simpl in *.
    destruct (block_char_cases st)
      as [[_ E]|[(_ & _ & E)|(_ & b & rest & Hb & E)]];
      rewrite E in Hv; try discriminate.
    injection Hv as <- <-. simpl in *.
    exists (b :: bs). split_and!; [simpl; lia| |..|done].
    + rewrite Hb, Hin. done.
    + rewrite Hl. simpl. by rewrite list_insert_inserts_lt by lia.
Qed.

(** X5.  A substitute edit that succeeds copies the [count] octets that
    follow its fields in the stream, in order, into its written range. *)
Theorem substitute_writes (fuel : nat) (cmd : Z) (st st' : state) :
  edit_ok st →
  read_substitute get_next_block_character fuel cmd st = Ok tt st' →
  ∃ offset count st1 bs,
    substitute_fields get_next_block_character fuel cmd st
    = Ok (offset, count) st1
    ∧ length bs = Z.to_nat count
    ∧ in_file st1 = bs ++ in_file st'
    ∧ line_offset st' = line_offset st + offset + count
    ∧ ∀ (j : nat) (b : byte), bs !! j = Some b →
        line st' !! (Z.to_nat (line_offset st + offset) + j)%nat
        = Some (byte_val b).
Proof.
  intros Hok H. rewrite read_substitute_split in H.
  apply bind_Ok in H as ([o c] & st1 & Hf & H).
  pose proof (fields_buffers _ _ _ _
    (substitute_fields_buffers _ fuel block_char_buffers cmd) Hf) as Hb.
  pose proof Hf as Hf'.
  apply substitute_fields_range in Hf' as (Ho & Hc).
  pose proof (edit_ok_buffers _ _ Hb Hok) as Hok1.
  destruct Hb as (Hl & Hlo & _).
  unfold apply_substitute, mbind at 1, M_bind at 1 in H.
  rewrite grow_line_spec in H by done. rewrite Hlo, Hl in H.
  destruct Hok as [Hcur Hlen]. unfold MAX_LINE_SIZE in *.
  destruct (Z.gtb_spec (line_offset st + o + c) 2000) as [|Hle]; [done|].
  unfold advance, modify, gets, mbind at 1 2, M_bind at 1 2 in H. simpl in H.
  rewrite Hlo, size_t_small in H by lia.
  apply bind_Ok in H as ([] & st2 & Hg & [= <-]).
  apply generate_n_block in Hg as (bs & Hbs & Hin & Hline & Hlo2). simpl in *.
  exists o, c, st1, bs. rewrite Hlo2, size_t_small by lia.
  split_and!; [done..|lia|].
  intros j b Hj. rewrite Hline.
  assert (j < length bs)%nat by eauto using lookup_lt_Some.
  rewrite list_lookup_inserts.
  - rewrite list_lookup_fmap.
    replace (Z.to_nat (line_offset st + o) + j - Z.to_nat (line_offset st + o))%nat
      with j by lia.
    by rewrite Hj.
  - rewrite length_fmap. lia.
  - rewrite length_app, length_replicate. lia.
Qed.

Lemma substitute_writes_witness :
  let st := State [xbb; x01] [] [0; 0; 170; 170] 0 true 2 1030 [] in
  let st' := State [x01] [] [0; 0; 170; 170; 187] 5 true 1 1030 [] in
  read_substitute get_next_block_character 1 32 st = Ok tt st'
  ∧ line st' !! 4%nat = Some 187.
Proof.
  intros st st'. split; [reflexivity|].
  assert (edit_ok st) as Hok by (vm_compute; repeat split; discriminate).
  destruct (substitute_writes 1 32 st st' Hok eq_refl)
    as (o & c & st1 & bs & Hf & Hlen & Hin & _ & Hw).
  injection Hf as <- <- <-.
  destruct bs as [|b [|b' bs]]; try discriminate Hlen.
  injection Hin as <-.
  exact (Hw 0%nat xbb eq_refl).
Defined.

(** ** The wrapper parser, byte by byte *)

Lemma byte_val_inj (a b : byte) : byte_val a = byte_val b → a = b.
Proof.
  unfold byte_val. intros H.
  assert (Byte.to_N a = Byte.to_N b) as E by lia.
  apply (f_equal Byte.of_N) in E. rewrite !Byte.of_to_N in E. by injection E.
Qed.

Lemma byte_val_eqb (a b : byte) :
  (byte_val a =? byte_val b) = bool_decide (a = b).
Proof.
  case_bool_decide as H.
  - subst. apply Z.eqb_refl.
  - apply Z.eqb_neq. intros E. by apply byte_val_inj in E.
Qed.

Lemma read_page_loop_eof fuel n st :
  in_file st = [] → read_page_loop fuel (S n) st = Ok tt st.
Proof. intros H. simpl. unfold getc, mbind, M_bind. by rewrite H. Qed.

Lemma read_page_loop_ff fuel n st rest :
  in_file st = x0c :: rest →
  read_page_loop fuel (S n) st = Ok tt (set_in_file rest st).
Proof. intros H. simpl. unfold getc, mbind, M_bind. by rewrite H. Qed.

Lemma read_page_loop_step fuel n st b rest :
  in_file st = b :: rest → b ≠ x0c →
  read_page_loop fuel (S n) st
  = (read_page_char fuel (byte_val b);; read_page_loop fuel n)
      (set_in_file rest st).
Proof.
  intros H Hb. simpl. unfold getc, mbind at 1, M_bind at 1. rewrite H.
  pose proof (byte_val_range b).
  destruct (Z.geb_spec (byte_val b) 0); [|lia].
  change 12 with (byte_val x0c). rewrite byte_val_eqb.
  by rewrite bool_decide_eq_false_2.
Qed.

Lemma read_page_char_escape fuel st b1 b2 rest :
  in_file st = b1 :: b2 :: rest →
  read_page_char fuel 27 st
  = Ok tt (if bool_decide (b1 = x2a ∧ b2 = x62)
           then set_number 0 (set_in_raster true (set_in_file rest st))
           else set_in_file rest st).
Proof.
  intros Hin. unfold read_page_char. simpl.
  rewrite (bind_eq _ _ _ _ _ (get_Ok _ _ _ Hin)).
  rewrite (bind_eq _ _ _ _ _ (get_Ok (set_in_file (b2 :: rest) st) b2 rest eq_refl)).
  change 42 with (byte_val x2a). change 98 with (byte_val x62).
  rewrite !byte_val_eqb.
  rewrite <- bool_decide_and.
  case_bool_decide; by destruct st.
Qed.

(** X6.  ESC takes the two octets that follow it, whatever they are.
    If they are [*] and [b] the parser enters raster mode with [number]
    zero; any other pair changes nothing else. *)
Theorem escape_sequence (fuel : nat) (st : state) (b1 b2 : byte) (rest : list byte) :
  in_file st = b1 :: b2 :: rest →
  read_page_char fuel 27 st
  = Ok tt (if bool_decide (b1 = x2a ∧ b2 = x62)
           then set_number 0 (set_in_raster true (set_in_file rest st))
           else set_in_file rest st).
Proof. apply read_page_char_escape. Qed.

Lemma escape_sequence_witness :
  read_page_char 1 27 (State [x2a; x62; x35] [] [] 0 false 7 0 [])
  = Ok tt (State [x35] [] [] 0 true 0 0 []).
Proof.
  exact (escape_sequence 1 (State [x2a; x62; x35] [] [] 0 false 7 0 [])
           x2a x62 [x35] eq_refl).
Defined.

(** X7.  ESC with fewer than two octets left in the stream is fatal:
    [unexpected_eof], with the stream used up and nothing written. *)
Theorem escape_at_end (fuel : nat) (st : state) :
  (length (in_file st) < 2)%nat →
  read_page_char fuel 27 st = Throw unexpected_eof (set_in_file [] st).
Proof.
  intros Hlen. unfold read_page_char. simpl.
  destruct (in_file st) as [|b1 [|b2 rest]] eqn:Hin; simpl in Hlen; [| |lia].
  - rewrite (bind_throw_eq _ _ _ _ _ (get_eof _ Hin)).
    f_equal. destruct st; simpl in *. by subst.
  - rewrite (bind_eq _ _ _ _ _ (get_Ok _ _ _ Hin)).
    by rewrite (bind_throw_eq _ _ _ _ _ (get_eof (set_in_file [] st) eq_refl)).
Qed.

Lemma escape_at_end_witness :
  read_page_char 1 27 (State [x2a] [[1]] [1] 1 true 3 1030 [])
  = Throw unexpected_eof (State [] [[1]] [1] 1 true 3 1030 []).
Proof.
  exact (escape_at_end 1 (State [x2a] [[1]] [1] 1 true 3 1030 [])
           ltac:(vm_compute; lia)).
Defined.

Lemma decimal_u32 ds : ∀ a b,
  u32 a = u32 b → u32 (decimal a ds) = u32 (decimal b ds).
Proof.
  unfold decimal. induction ds as [|d ds IH]; intros a b Hab; simpl; [done|].
  apply IH. unfold u32 in *.
  rewrite (Z.add_mod (a * 10)), (Z.add_mod (b * 10)) by lia.
  rewrite (Z.mul_mod a), (Z.mul_mod b) by lia. by rewrite Hab.
Qed.

Lemma read_page_char_digit fuel st (d : byte) :
  in_raster st = true → is_digit d →
  read_page_char fuel (byte_val d) st
  = Ok tt (set_number (u32 (number st * 10 + (byte_val d - 48))) st).
Proof.
  intros Hr [Hd1 Hd2]. rewrite read_page_char_raster; [|lia|done].
  unfold in_range.
  destruct (Z.leb_spec 48 (byte_val d)); [|lia].
  destruct (Z.leb_spec (byte_val d) 57); [|lia].
  destruct (Z.leb_spec 96 (byte_val d)); [lia|].
  destruct (Z.leb_spec 64 (byte_val d)); [lia|]. simpl.
  unfold modify, mbind, M_bind, mret, M_ret.
  by rewrite (u32_small (byte_val d - 48)) by lia.
Qed.

Lemma read_page_loop_digits fuel n ds rest st :
  in_raster st = true → number_ok st → Forall is_digit ds →
  in_file st = ds ++ rest →
  read_page_loop fuel (length ds + n) st
  = read_page_loop fuel n
      (set_number (u32 (decimal (number st) ds)) (set_in_file rest st)).
Proof.
  intros Hr Hn Hds. revert st Hr Hn.
  induction Hds as [|d ds Hd Hds IH]; intros st Hr Hn Hin; simpl in Hin.
  - simpl. unfold decimal. simpl. rewrite u32_small by done.
    f_equal. destruct st; simpl in *. by subst.
  - change (length (d :: ds) + n)%nat with (S (length ds + n)).
    rewrite (read_page_loop_step _ _ _ _ _ Hin).
    2: { intros ->. destruct Hd as [Hd _]. vm_compute in Hd. by apply Hd. }
    rewrite (bind_eq _ _ _ _ _
      (read_page_char_digit fuel (set_in_file (ds ++ rest) st) d Hr Hd)).
    rewrite IH; [|done|apply u32_range|done]. simpl.
    replace (decimal (number st) (d :: ds))
      with (decimal (number st * 10 + (byte_val d - 48)) ds) by done.
    rewrite (decimal_u32 ds (u32 (number st * 10 + (byte_val d - 48)))
               (number st * 10 + (byte_val d - 48))).
    + by destruct st.
    + unfold u32. by rewrite Z.mod_mod by lia.
Qed.

(** X8.  In raster mode a run of decimal digits is read as a number:
    the parser goes on after the run with [number] holding the digits'
    decimal value, continued from the old [number], modulo 2^32. *)
Theorem parameter_digits (fuel n : nat) (ds rest : list byte) (st : state) :
  in_raster st = true → number_ok st → Forall is_digit ds →
  in_file st = ds ++ rest →
  read_page_loop fuel (length ds + n) st
  = read_page_loop fuel n
      (set_number (u32 (decimal (number st) ds)) (set_in_file rest st)).
Proof. apply read_page_loop_digits. Qed.

Lemma parameter_digits_witness :
  read_page_loop 2 (4 + 1) (State [x31; x30; x33; x30] [] [] 0 true 0 0 [])
  = read_page_loop 2 1 (State [] [] [] 0 true 1030 0 []).
Proof.
  refine (parameter_digits 2 1 [x31; x30; x33; x30] []
            (State [x31; x30; x33; x30] [] [] 0 true 0 0 []) eq_refl _ _ eq_refl).
  - vm_compute. split; [discriminate|reflexivity].
  - repeat constructor; vm_compute; discriminate.
Defined.

(** Outside raster mode every byte but ESC is passed over. *)
Lemma read_page_char_idle fuel ch st :
  in_raster st = false → ch ≠ 27 → read_page_char fuel ch st = Ok tt st.
Proof.
  intros Hr Hch. unfold read_page_char.
  destruct (Z.eqb_spec ch 27); [done|].
  unfold gets, mbind, M_bind. by rewrite Hr.
Qed.

Lemma read_page_loop_idle fuel (l : list byte) : ∀ n st,
  in_file st = l → x1b ∉ l → in_raster st = false → (length l < n)%nat →
  read_page_loop fuel n st = Ok tt (set_in_file (after_ff l) st).
Proof.
  induction l as [|b l IH]; intros n st Hin Hesc Hr Hn;
    (destruct n as [|n]; [simpl in Hn; lia|]).
  - rewrite read_page_loop_eof by done. simpl. rewrite <- Hin. by destruct st.
  - apply not_elem_of_cons in Hesc as [Hb Hesc]. cbn [after_ff].
    change 12 with (byte_val x0c). rewrite byte_val_eqb. case_bool_decide as Hff.
    + subst b. by apply read_page_loop_ff.
    + rewrite (read_page_loop_step _ _ _ _ _ Hin Hff).
      assert (byte_val b ≠ 27) as Hb27.
      { change 27 with (byte_val x1b). intros E. by apply byte_val_inj in E. }
      rewrite (bind_eq _ _ _ _ _
        (read_page_char_idle fuel (byte_val b) (set_in_file l st) Hr Hb27)).
      rewrite (IH n (set_in_file l st)); [by destruct st|done..|simpl in Hn; lia].
Qed.

(** X9.  A stream without an ESC octet holds no raster data: the first
    page read is empty, whatever the other octets are, the stream is read
    up to its first form-feed, and the driver writes nothing. *)
Theorem no_escape_no_page (input : list byte) :
  x1b ∉ input →
  run_page (start input) = Ok false (State (after_ff input) [] [] 0 false 0 0 [])
  ∧ run_main input = Ok tt (State (after_ff input) [] [] 0 false 0 0 []).
Proof.
  intros Hesc.
  assert (run_page (start input)
          = Ok false (State (after_ff input) [] [] 0 false 0 0 [])) as Hpage.
  { unfold run_page, read_page, enough, modify, mbind at 1 2 3 4, M_bind at 1 2 3 4.
    set (s0 := set_line [] (set_page [] (set_format 0
                 (set_in_raster false (start input))))).
    assert (read_page_loop (S (length (in_file (start input))))
              (S (length (in_file (start input)))) s0
            = Ok tt (set_in_file (after_ff input) s0)) as Hl.
    { apply read_page_loop_idle; [done..|simpl; lia]. }
    by rewrite (bind_eq _ _ _ _ _ Hl). }
  split; [done|].
  unfold run_main. unfold run_page, enough in Hpage.
  change (main_loop (S (length input)) (S (length input)) (start input))
    with ((more ← read_page (S (length (in_file (start input))));
           if more : bool
           then write_pnm;; main_loop (S (length input)) (length input)
           else mret tt) (start input)).
  by rewrite (bind_eq _ _ _ _ _ Hpage).
Qed.

Lemma no_escape_no_page_witness :
  run_main [x48; x69; x0c; x77] = Ok tt (State [x77] [] [] 0 false 0 0 []).
Proof.
  refine (proj2 (no_escape_no_page [x48; x69; x0c; x77] _)).
  intros H. repeat (apply elem_of_cons in H as [H|H]; [discriminate H|]).
  by apply elem_of_nil in H.
Defined.

(** ** Blocks *)

Lemma same_page_trans a b c : same_page a b → same_page b c → same_page a c.
Proof. unfold same_page. congruence. Qed.

Lemma block_char_page :
  keeps same_page same_page (λ _, True) True get_next_block_character.
Proof.
  intros st _. pose proof (block_char_buffers st I) as H.
  destruct (get_next_block_character st); simpl in *; [| |done];
    by destruct H as (_ & _ & ?).
Qed.

(** A line decode that succeeds appends exactly one line to the page,
    the buffer it leaves. *)
Lemma read_line_appends fuel st st' :
  read_line get_next_block_character fuel st = Ok tt st' →
  page st' = page st ++ [line st'].
Proof.
  unfold read_line. intros (n & st1 & Hfirst & H)%bind_Ok.
  apply bind_Ok in H as ([] & st2 & Hmid & [= <-]). simpl.
  pose proof (block_char_page st I) as H1. rewrite Hfirst in H1. simpl in H1.
  assert (same_page st1 st2) as H2; [|unfold same_page in *; congruence].
  destruct (n =? 255).
  { by injection Hmid as <-. }
  apply bind_Ok in Hmid as ([] & st3 & [= <-] & Hedits).
  assert (keeps same_page same_page (λ _, True) True
            (for_n (Z.to_nat n) (read_edit get_next_block_character fuel))) as Hk.
  { apply keeps_for_n; try done; [apply same_page_trans..|].
    apply keeps_read_edit; try done; [apply same_page_trans..|apply block_char_page|].
    intros sum. apply keeps_overflow_partial; try done;
      [apply same_page_trans..|apply block_char_page]. }
  specialize (Hk (set_line_offset 0 st1) I). rewrite Hedits in Hk. exact Hk.
Qed.

Lemma read_lines_append fuel count : ∀ st st',
  for_n count (read_line get_next_block_character fuel) st = Ok tt st' →
  ∃ new, page st' = page st ++ new ∧ length new = count
         ∧ (count ≠ 0%nat → last new = Some (line st')).
Proof.
  induction count as [|count IH]; intros st st'; simpl.
  - intros [= <-]. exists []. by rewrite app_nil_r.
  - intros ([] & st1 & Hline & Hrest)%bind_Ok.
    apply read_line_appends in Hline.
    destruct (IH _ _ Hrest) as (new & Hpg & Hlen & Hlast).
    exists (line st1 :: new). rewrite Hpg, Hline, <- (assoc_L (++)).
    split_and!; [done|simpl; lia|]. intros _.
    destruct count as [|count].
    + destruct new; [|done]. simpl in *. by injection Hrest as <-.
    + rewrite last_cons. by rewrite Hlast.
Qed.

(** X10.  The line count at the head of a block is authoritative: a block
    that decodes adds exactly [256 * high + low] lines to the page, behind
    the lines it had, and the last of them is the buffer the block
    leaves. *)
Theorem block_line_count (fuel : nat) (st st' : state) (hi lo : byte)
    (rest : list byte) :
  in_file st = hi :: lo :: rest → 1 < number st < 2 ^ 32 →
  read_block get_next_block_character fuel st = Ok tt st' →
  let count := Z.to_nat (256 * byte_val hi + byte_val lo) in
  ∃ new, page st' = page st ++ new ∧ length new = count
         ∧ (count ≠ 0%nat → last new = Some (line st')).
Proof.
  intros Hin Hn H count. unfold read_block in H.
  rewrite (bind_eq _ _ _ _ _ (block_char_Ok _ _ _ Hin ltac:(lia))) in H.
  rewrite (bind_eq _ _ _ _ _
    (block_char_Ok (set_in_file (lo :: rest) (set_number (number st - 1) st))
       lo rest eq_refl ltac:(simpl; lia))) in H.
  pose proof (byte_val_range hi). pose proof (byte_val_range lo).
  rewrite (u32_small (byte_val hi)), u32_small in H by lia.
  replace (byte_val hi * 256 + byte_val lo) with (256 * byte_val hi + byte_val lo)
    in H by lia.
  by apply read_lines_append in H.
Qed.

Lemma block_line_count_witness :
  let st := State [x00; x02; x00; xff; x0c] [[9]] [9] 0 true 4 1030 [] in
  let st' := State [x0c] [[9]; [9]; []] [] 0 true 0 1030 [] in
  ∃ new, page st' = page st ++ new ∧ length new = 2%nat
         ∧ (2%nat ≠ 0%nat → last new = Some (line st')).
Proof.
  intros st st'.
  exact (block_line_count 4 st st' x00 x02 [x00; xff; x0c] eq_refl
           ltac:(vm_compute; split; reflexivity) eq_refl).
Defined.

(** X11.  A block declared with fewer than two octets cannot hold its
    line count: with format 1030 the graphics-data branch throws
    [read_past_block_end], after no octet for a count of zero and after
    one octet for a count of one. *)
Theorem short_block (fuel : nat) (st : state) :
  format st = 1030 →
  (number st = 0 → graphics_data fuel st = Throw read_past_block_end st)
  ∧ (number st = 1 → ∀ b rest, in_file st = b :: rest →
     graphics_data fuel st
     = Throw read_past_block_end (set_in_file rest (set_number 0 st))).
Proof.
  intros Hf.
  assert (∀ e s, read_block get_next_block_character fuel st = Throw e s →
                 graphics_data fuel st = Throw e s) as Hg.
  { intros e s Hb. unfold graphics_data, gets, mbind at 1, M_bind at 1.
    rewrite Hf, Z.eqb_refl. by rewrite (bind_throw_eq _ _ _ _ _ Hb). }
  split.
  - intros Hn. apply Hg. unfold read_block. apply bind_throw_eq.
    apply block_char_end. lia.
  - intros Hn b rest Hin. apply Hg. unfold read_block.
    rewrite (bind_eq _ _ _ _ _ (block_char_Ok _ _ _ Hin ltac:(lia))).
    apply bind_throw_eq. rewrite Hn. by apply block_char_end.
Qed.

Lemma short_block_witness :
  graphics_data 3 (State [x00; x00; x0c] [] [] 0 true 0 1030 [])
  = Throw read_past_block_end (State [x00; x00; x0c] [] [] 0 true 0 1030 []).
Proof.
  exact (proj1 (short_block 3 (State [x00; x00; x0c] [] [] 0 true 0 1030 []) eq_refl)
           eq_refl).
Defined.

(** ** What the driver writes *)

Lemma written_emit_warn k st : written (emit (warn_unread k) st) = written st.
Proof. unfold written. simpl. rewrite omap_app. simpl. by rewrite app_nil_r. Qed.

Lemma written_emit_page p st :
  written (emit (wrote_page p) st) = written st ++ [p].
Proof. unfold written. simpl. by rewrite omap_app. Qed.

Lemma same_written_trans a b c :
  same_written a b → same_written b c → same_written a c.
Proof. unfold same_written. congruence. Qed.

Lemma block_char_written :
  keeps same_written same_written (λ _, True) True get_next_block_character.
Proof.
  intros st _. pose proof (block_char_parser st I) as H.
  destruct (get_next_block_character st); simpl in *; [| |done];
    destruct H as (_ & _ & H); unfold same_written, written; by rewrite H.
Qed.

Lemma read_block_written fuel :
  keeps same_written same_written (λ _, True) True
    (read_block get_next_block_character fuel).
Proof.
  apply keeps_read_block; try done.
  - apply same_written_trans.
  - apply same_written_trans.
  - apply block_char_written.
  - intros sum. apply keeps_overflow_partial; try done;
      [apply same_written_trans..|apply block_char_written].
Qed.

Lemma read_page_loop_written fuel n :
  keeps same_written same_written (λ _, True) True (read_page_loop fuel n).
Proof.
  assert (keeps same_written same_written (λ _, True) True getc) as Hgetc
    by by apply keeps_getc.
  apply keeps_read_page_loop_partial; try done.
  - apply same_written_trans.
  - apply same_written_trans.
  - intros k st _. unfold same_written. apply written_emit_warn.
  - apply read_block_written.
  - apply keeps_drain_partial; try done; apply same_written_trans.
Qed.

(** Reading a page writes none, whether it succeeds or throws. *)
Lemma read_page_written fuel st :
  post (λ _ st', same_written st st') (λ _ st', same_written st st') True
    (read_page fuel st).
Proof.
  unfold read_page, modify, mbind at 1 2 3 4, M_bind at 1 2 3 4.
  apply post_bind.
  match goal with |- post _ _ _ (read_page_loop _ _ ?s) =>
    pose proof (read_page_loop_written fuel fuel s I) as Hl;
    destruct (read_page_loop fuel fuel s) as [[] st1| |]; simpl in *; done
  end.
Qed.

(** The pages the driver loop hands to [write_pnm] have at least one line
    and lines within the limit. *)
Lemma main_loop_written fuel n : ∀ st,
  let good := λ p : list (list Z),
    p ≠ [] ∧ Forall (λ l, Z.of_nat (length l) ≤ MAX_LINE_SIZE) p in
  Forall good (written st) →
  post (λ _ st', Forall good (written st')) (λ _ st', Forall good (written st'))
       True (main_loop fuel n st).
Proof.
  induction n as [|n IH]; intros st good Hgood; simpl; [done|].
  apply post_bind. pose proof (read_page_written fuel st) as Hw.
  destruct (read_page fuel st) as [b st1|e st1|] eqn:Hpage; simpl in *;
    [| |done].
  - unfold same_written in Hw. destruct b; simpl; [|by rewrite Hw].
    unfold write_pnm, modify, mbind, M_bind. apply IH.
    rewrite written_emit_page, Hw. apply Forall_app. split; [done|].
    apply Forall_singleton. split.
    + by apply (read_page_reports _ _ _ _ Hpage).
    + by destruct (read_page_page_ok _ _ _ _ Hpage).
  - unfold same_written in Hw. by rewrite Hw.
Qed.

(** X12.  Whatever the input, every page the program writes has at least
    one line, and every line of it is at most 2000 octets long; this holds
    for the pages written before an exception too. *)
Theorem written_pages_sound (input : list byte) (st' : state) :
  (run_main input = Ok tt st' ∨ ∃ e, run_main input = Throw e st') →
  Forall (λ p, p ≠ [] ∧ Forall (λ l, Z.of_nat (length l) ≤ MAX_LINE_SIZE) p)
         (written st').
Proof.
  intros H.
  pose proof (main_loop_written (S (length input)) (S (length input))
                (start input) (Forall_nil_2 _)) as Hm.
  fold (run_main input) in Hm.
  destruct H as [H|[e H]]; rewrite H in Hm; exact Hm.
Qed.

Lemma written_pages_sound_witness :
  Forall (λ p, p ≠ [] ∧ Forall (λ l, Z.of_nat (length l) ≤ MAX_LINE_SIZE) p)
    (written (State [] [] [] 0 false 0 0 [wrote_page [[]]])).
Proof.
  exact (written_pages_sound
           [x1b; x2a; x62; x31; x30; x33; x30; x6d; x33; x77; x00; x01; x00; x0c]
           (State [] [] [] 0 false 0 0 [wrote_page [[]]])
           (or_introl eq_refl)).
Defined.

(** X13.  A page that fails is not written: when [read_page] throws, the
    driver loop ends with the same exception in the same state, and the
    pages written are those written before. *)
Theorem failed_page_not_written (fuel n : nat) (st st' : state) (e : exn) :
  read_page fuel st = Throw e st' →
  main_loop fuel (S n) st = Throw e st' ∧ written st' = written st.
Proof.
  intros H. split.
  - simpl. by apply bind_throw_eq.
  - pose proof (read_page_written fuel st) as Hw. by rewrite H in Hw.
Qed.

Lemma failed_page_not_written_witness :
  main_loop 3 1 (State [x1b; x2a; x62; x30; x57] [] [] 0 false 0 0 [wrote_page [[1]]])
  = Throw (unsupported_compression 0)
      (State [] [] [] 0 true 0 0 [wrote_page [[1]]]).
Proof.
  exact (proj1 (failed_page_not_written 3 0
    (State [x1b; x2a; x62; x30; x57] [] [] 0 false 0 0 [wrote_page [[1]]])
    (State [] [] [] 0 true 0 0 [wrote_page [[1]]])
    (unsupported_compression 0) eq_refl)).
Defined.

(** ** The uninitialised [number] *)

Lemma alike_result_refl {A} (r : result A) : alike_result r r.
Proof. destruct r; simpl; try done; split; try done; by left. Qed.

Lemma alike_bind {A B} (m : M A) (f : A → M B) s1 s2 :
  alike_result (m s1) (m s2) →
  (∀ a t1 t2, alike t1 t2 → alike_result (f a t1) (f a t2)) →
  alike_result ((m ≫= f) s1) ((m ≫= f) s2).
Proof.
  intros Hm Hf. unfold mbind, M_bind.
  destruct (m s1) as [a t1|e t1|], (m s2) as [a' t2|e' t2|]; simpl in *; try done.
  destruct Hm as [-> Ht]. by apply Hf.
Qed.

Lemma alike_in_file s1 s2 v : alike s1 s2 → alike (set_in_file v s1) (set_in_file v s2).
Proof.
  intros [->|(Hr & k & ->)]; [by left|right].
  split; [done|]. exists k. by destruct s2.
Qed.

Lemma getc_alike s1 s2 : alike s1 s2 → alike_result (getc s1) (getc s2).
Proof.
  intros H. unfold getc.
  assert (in_file s1 = in_file s2) as ->.
  { destruct H as [->|(_ & k & ->)]; [done|by destruct s2]. }
  destruct (in_file s2); simpl; (split; [done|]); [done|by apply alike_in_file].
Qed.

Lemma get_alike s1 s2 : alike s1 s2 → alike_result (get s1) (get s2).
Proof.
  intros H. unfold get. apply alike_bind; [by apply getc_alike|].
  intros ch t1 t2 Ht. destruct (ch <? 0); simpl; by split.
Qed.

Lemma read_page_char_alike fuel ch s1 s2 :
  alike s1 s2 →
  alike_result (read_page_char fuel ch s1) (read_page_char fuel ch s2).
Proof.
  intros H. unfold read_page_char. destruct (ch =? 27).
  - apply alike_bind; [by apply get_alike|]. intros ch1 t1 t2 Ht.
    apply alike_bind; [by apply get_alike|]. intros ch2 u1 u2 Hu.
    destruct ((ch1 =? 42) && (ch2 =? 98)); simpl; [|by split].
    split; [done|]. left.
    destruct Hu as [->|(_ & k & ->)]; [done|by destruct u2].
  - destruct H as [->|(Hr & k & ->)]; [apply alike_result_refl|].
    unfold gets, mbind, M_bind. simpl. rewrite Hr. simpl.
    split; [done|]. right. eauto.
Qed.

Lemma read_page_loop_alike fuel n : ∀ s1 s2,
  alike s1 s2 →
  alike_result (read_page_loop fuel n s1) (read_page_loop fuel n s2).
Proof.
  induction n as [|n IH]; intros s1 s2 H; simpl; [done|].
  apply alike_bind; [by apply getc_alike|]. intros ch t1 t2 Ht.
  destruct (ch >=? 0); [|by split].
  destruct (ch =? 12); [by split|].
  apply alike_bind; [by apply read_page_char_alike|].
  intros [] u1 u2 Hu. by apply IH.
Qed.

Lemma alike_fields s1 s2 :
  alike s1 s2 →
  page s1 = page s2 ∧ line s1 = line s2 ∧ in_file s1 = in_file s2
  ∧ trace s1 = trace s2 ∧ in_raster s1 = in_raster s2 ∧ format s1 = format s2.
Proof. intros [->|(_ & k & ->)]; [done|by destruct s2]. Qed.

(** X14.  [read_page] declares [number] without a value.  The value it
    starts with is never read: with any other start value the page run
    ends the same way, with the same result, page, buffer, stream and
    outputs, and the two end states differ at most in a [number] that was
    never set. *)
Theorem number_never_read (fuel : nat) (st : state) (k : Z) :
  alike_result (read_page fuel (set_number k st)) (read_page fuel st)
  ∧ ∀ b st', read_page fuel st = Ok b st' →
      ∃ st'', read_page fuel (set_number k st) = Ok b st''
              ∧ page st'' = page st' ∧ line st'' = line st'
              ∧ in_file st'' = in_file st' ∧ trace st'' = trace st'.
Proof.
  assert (alike_result (read_page fuel (set_number k st)) (read_page fuel st)) as Ha.
  { unfold read_page, modify, mbind at 1 2 3 4 7 8 9 10, M_bind at 1 2 3 4 7 8 9 10.
    apply alike_bind.
    - apply read_page_loop_alike. right. split; [done|]. exists k. by destruct st.
    - intros [] t1 t2 Ht. unfold gets, mbind, M_bind, mret, M_ret. simpl.
      destruct (alike_fields _ _ Ht) as (-> & _). by split. }
  split; [done|]. intros b st' H. rewrite H in Ha.
  destruct (read_page fuel (set_number k st)) as [b' st''| |]; simpl in Ha; try done.
  destruct Ha as [-> Ha]. exists st''. split; [done|].
  by destruct (alike_fields _ _ Ha) as (-> & -> & -> & -> & _).
Qed.

Lemma number_never_read_witness :
  alike_result
    (read_page 4 (set_number 7 (State [x1b; x2a; x62; x0c] [] [] 0 false 3 0 [])))
    (read_page 4 (State [x1b; x2a; x62; x0c] [] [] 0 false 3 0 [])).
Proof.
  exact (proj1 (number_never_read 4
                  (State [x1b; x2a; x62; x0c] [] [] 0 false 3 0 []) 7)).
Defined.

(** ** The block introducer *)

Lemma bind_eq_fun {A B} (m m' : M A) (f : A → M B) st :
  m st = m' st → (m ≫= f) st = (m' ≫= f) st.
Proof. unfold mbind, M_bind. by intros ->. Qed.

Lemma bind_assoc {A B C} (m : M A) (f : A → M B) (g : B → M C) st :
  ((m ≫= f) ≫= g) st = (m ≫= λ a, f a ≫= g) st.
Proof. unfold mbind, M_bind. by destruct (m st). Qed.

(** X15.  The wrapper grammar of one block: after ESC [*] [b], the format
    selection 1030m, a run of digits and [w], the parser hands the rest of
    the stream to the graphics-data branch in raster mode, with format
    1030 and the digits' value as the block's octet count; after the
    branch it resets [number] and reads on. *)
Theorem block_introducer (fuel n : nat) (ds tail : list byte) (st : state) :
  Forall is_digit ds →
  in_file st = [x1b; x2a; x62; x31; x30; x33; x30; x6d] ++ ds ++ x77 :: tail →
  read_page_loop fuel (6 + (length ds + S n)) st
  = (graphics_data fuel;; modify (set_number 0);; read_page_loop fuel n)
      (State tail (page st) (line st) (line_offset st) true
             (u32 (decimal 0 ds)) 1030 (trace st)).
Proof.
  intros Hds Hin. simpl in Hin.
  set (r4 := ds ++ x77 :: tail) in *.
  set (r3 := x6d :: r4) in *.
  set (r2 := [x31; x30; x33; x30] ++ r3).
  set (r1 := x2a :: x62 :: r2).
  change (in_file st = x1b :: r1) in Hin.
  change (6 + (length ds + S n))%nat
    with (S (length [x31; x30; x33; x30] + S (length ds + S n))).
  rewrite (read_page_loop_step _ _ _ _ _ Hin) by done.
  rewrite (bind_eq _ _ _ _ _
    (read_page_char_escape fuel (set_in_file r1 st) x2a x62 r2 eq_refl)).
  set (s2 := set_number 0 (set_in_raster true (set_in_file r2 (set_in_file r1 st)))).
  rewrite (read_page_loop_digits fuel _ [x31; x30; x33; x30] r3 s2 eq_refl);
    [| |repeat constructor; by vm_compute|done].
  2: { unfold number_ok. simpl. lia. }
  change (u32 (decimal (number s2) [x31; x30; x33; x30])) with 1030.
  set (s3 := set_number 1030 (set_in_file r3 s2)).
  rewrite (read_page_loop_step fuel _ s3 x6d r4 eq_refl) by done.
  rewrite (bind_eq_fun _ _ _ _ (read_page_char_raster fuel (byte_val x6d)
             (set_in_file r4 s3) ltac:(done) eq_refl)).
  change (byte_val x6d) with 109.
  set (s4 := set_number 0 (set_format 1030 (set_in_file r4 s3))).
  change (read_page_loop fuel (length ds + S n) s4
          = (graphics_data fuel;; modify (set_number 0);; read_page_loop fuel n)
              (State tail (page st) (line st) (line_offset st) true
                     (u32 (decimal 0 ds)) 1030 (trace st))).
  rewrite (read_page_loop_digits fuel _ ds (x77 :: tail) s4 eq_refl);
    [| |done|done].
  2: { unfold number_ok. simpl. lia. }
  set (s5 := set_number (u32 (decimal (number s4) ds)) (set_in_file (x77 :: tail) s4)).
  rewrite (read_page_loop_step fuel _ s5 x77 tail eq_refl) by done.
  rewrite (bind_eq_fun _ _ _ _ (read_page_char_raster fuel (byte_val x77)
             (set_in_file tail s5) ltac:(done) eq_refl)).
  change (byte_val x77) with 119.
  change (((graphics_data fuel;; modify (set_number 0));; read_page_loop fuel n)
            (set_in_file tail s5)
          = (graphics_data fuel;; modify (set_number 0);; read_page_loop fuel n)
              (State tail (page st) (line st) (line_offset st) true
                     (u32 (decimal 0 ds)) 1030 (trace st))).
  rewrite bind_assoc. by destruct st.
Qed.

Lemma block_introducer_witness :
  read_page_loop 9 (6 + (1 + 2))
    (State [x1b; x2a; x62; x31; x30; x33; x30; x6d; x33; x77; x00; x01; x00; x0c]
           [] [] 0 false 0 0 [])
  = (graphics_data 9;; modify (set_number 0);; read_page_loop 9 1)
      (State [x00; x01; x00; x0c] [] [] 0 true 3 1030 []).
Proof.
  refine (block_introducer 9 1 [x33] [x00; x01; x00; x0c]
            (State [x1b; x2a; x62; x31; x30; x33; x30; x6d; x33; x77;
                    x00; x01; x00; x0c] [] [] 0 false 0 0 []) _ eq_refl).
  repeat constructor; vm_compute; discriminate.
Defined.

(** ** What a block leaves alone *)





(** ** The edit opcode *)

Lemma int8_top_bit (b : byte) :
  (int8 (byte_val b) <? 0) = Z.testbit (byte_val b) 7
  ∧ u8 (int8 (byte_val b)) = byte_val b.
Proof. destruct b; vm_compute; done. Qed.

(** X17.  [read_edit] reads the opcode into an [int8_t] and tests its
    sign: that is a test of the opcode's top bit, and the opcode reaches
    the edit function unchanged.  Top bit set is a repeat edit, clear a
    substitute edit. *)
Theorem edit_dispatch (fuel : nat) (st : state) (b : byte) (rest : list byte) :
  in_file st = b :: rest → 0 < number st < 2 ^ 32 →
  let st1 := set_in_file rest (set_number (number st - 1) st) in
  read_edit get_next_block_character fuel st
  = if Z.testbit (byte_val b) 7
    then read_repeat get_next_block_character fuel (byte_val b) st1
    else read_substitute get_next_block_character fuel (byte_val b) st1.
Proof.
  intros Hin Hn st1. unfold read_edit.
  rewrite (bind_eq _ _ _ _ _ (block_char_Ok _ _ _ Hin Hn)). fold st1.
  destruct (int8_top_bit b) as [-> ->].
  by destruct (Z.testbit (byte_val b) 7).
Qed.

Lemma edit_dispatch_witness :
  read_edit get_next_block_character 1 (State [x82; xff] [] [] 0 true 2 1030 [])
  = read_repeat get_next_block_character 1 130 (State [xff] [] [] 0 true 1 1030 []).
Proof.
  exact (edit_dispatch 1 (State [x82; xff] [] [] 0 true 2 1030 []) x82 [xff]
           eq_refl ltac:(vm_compute; split; reflexivity)).
Defined.

(** ** The files of a run *)

Lemma list_ascii_of_string_app s t :
  String.list_ascii_of_string (s +:+ t)
  = String.list_ascii_of_string s ++ String.list_ascii_of_string t.
Proof. induction s as [|a s IH]; simpl; [done|]. by rewrite IH. Qed.

Lemma string_app_inv_tail s1 s2 t : s1 +:+ t = s2 +:+ t → s1 = s2.
Proof.
  intros H. apply (f_equal String.list_ascii_of_string) in H.
  rewrite !list_ascii_of_string_app in H. apply app_inv_tail in H.
  apply (f_equal String.string_of_list_ascii) in H.
  by rewrite !String.string_of_list_ascii_of_string in H.
Qed.

Lemma out_filename_inj out_prefix a b :
  out_filename out_prefix a = out_filename out_prefix b → a = b.
Proof.
  unfold out_filename. intros H.
  apply (inj (String.app out_prefix)) in H.
  apply (inj (String.app "-")) in H.
  apply string_app_inv_tail in H. by apply (inj pretty) in H.
Qed.

Lemma int32_small z : 0 ≤ z < 2 ^ 31 → int32 z = z.
Proof.
  intros Hz. unfold int32. rewrite Z.mod_small by lia.
  destruct (Z.ltb_spec z (2 ^ 31)); lia.
Qed.

Lemma page_counter_small i : ∀ k,
  0 ≤ k → k + Z.of_nat i < 2 ^ 31 →
  Nat.iter i (λ z, int32 (z + 1)) k = k + Z.of_nat i.
Proof.
  induction i as [|i IH]; intros k Hk Hi; simpl; [lia|].
  rewrite IH by lia. rewrite int32_small by lia. lia.
Qed.

Lemma page_counter_shift i k :
  Nat.iter i (λ z, int32 (z + 1)) (int32 (k + 1))
  = Nat.iter (S i) (λ z, int32 (z + 1)) k.
Proof. induction i as [|i IH]; simpl; [done|]. by rewrite IH. Qed.

Lemma main_files_run fuel out_prefix n : ∀ k files st out st',
  main_files fuel n out_prefix k files st = Ok out st' →
  main_loop fuel n st = Ok tt st'
  ∧ ∃ pages, written st' = written st ++ pages
      ∧ out = files
              ++ imap (λ i p, (out_filename out_prefix
                                 (Nat.iter i (λ z, int32 (z + 1)) k),
                               write_pnm_file p)) pages.
Proof.
  induction n as [|n IH]; intros k files st out st'; simpl; [done|].
  intros (more & st1 & Hpage & H)%bind_Ok.
  rewrite (bind_eq _ _ _ _ _ Hpage).
  pose proof (read_page_written fuel st) as Hw. rewrite Hpage in Hw.
  unfold same_written in Hw. simpl in Hw.
  destruct more.
  - unfold gets, write_pnm, modify, mbind at 1 2, M_bind at 1 2 in H.
    unfold write_pnm, modify, mbind at 1, M_bind at 1.
    destruct (IH _ _ _ _ _ H) as (Hl & pages & Hp & Hout).
    split; [done|]. exists (page st1 :: pages).
    rewrite Hp, written_emit_page, Hw, <- (assoc_L (++)). split; [done|].
    rewrite Hout, <- (assoc_L (++)). simpl. do 2 f_equal.
    apply imap_ext. intros i p _. simpl. f_equal. f_equal.
    apply page_counter_shift.
  - injection H as <- <-. split; [done|]. exists []. rewrite app_nil_r.
    split; [done|]. simpl. by rewrite app_nil_r.
Qed.

(** X18.  The files of a run.  Started on an input with counter [1], a
    run of the driver that ends normally after fewer than [2 ^ 31]
    pages has created exactly one file for each page written, in order:
    the [i]-th is named [out_prefix-i.pbm], counting from one, and holds
    the image of the [i]-th page.  The names are pairwise different, so
    no file is written over, and the state reached is the one of the
    loop without files. *)
Theorem run_files (fuel n : nat) (out_prefix : string) (input : list byte)
    (out : list (string * list Z)) (st' : state) :
  main_files fuel n out_prefix 1 [] (start input) = Ok out st' →
  Z.of_nat (length out) < 2 ^ 31 →
  out = imap (λ i p, (out_filename out_prefix (Z.of_nat (S i)),
                      write_pnm_file p)) (written st')
  ∧ NoDup out.*1
  ∧ main_loop fuel n (start input) = Ok tt st'.
Proof.
  intros H Hlen.
  destruct (main_files_run _ _ _ _ _ _ _ _ H) as (Hl & pages & Hp & Hout).
  change (written (start input)) with (@nil (list (list Z))) in Hp.
  simpl in Hp, Hout. subst out. rewrite length_imap in Hlen.
  assert (imap (λ i p, (out_filename out_prefix
                          (Nat.iter i (λ z, int32 (z + 1)) 1),
                        write_pnm_file p)) pages
          = imap (λ i p, (out_filename out_prefix (Z.of_nat (S i)),
                          write_pnm_file p)) pages) as ->.
  { apply imap_ext. intros i p Hi%lookup_lt_Some. simpl. do 2 f_equal.
    rewrite page_counter_small by lia. lia. }
  rewrite Hp. split; [done|]. split; [|done].
  apply NoDup_alt. intros i j name.
  rewrite !list_lookup_fmap, !list_lookup_imap.
  destruct (pages !! i) as [p|]; [|done].
  destruct (pages !! j) as [q|]; [|done].
  simpl. intros [= <-] [= Heq]. apply out_filename_inj in Heq. lia.
Qed.

Lemma run_files_witness :
  [("page-1.pbm", [80; 52; 32; 48; 32; 49; 10]);
   ("page-2.pbm",
    [80; 52; 32; 49; 49; 50; 32; 49; 10; 0; 0;
     85; 85; 85; 85; 85; 85; 85; 85; 85; 85; 85; 85])]
  = imap (λ i p, (out_filename "page" (Z.of_nat (S i)), write_pnm_file p))
      [[[]]; [[0; 0; 85; 85; 85; 85; 85; 85; 85; 85; 85; 85; 85; 85]]]
  ∧ NoDup ["page-1.pbm"; "page-2.pbm"]
  ∧ main_loop 40 40
      (start [x1b; x2a; x62; x31; x30; x33; x30; x6d; x33; x77;
              x00; x01; x00; x0c;
              x1b; x2a; x62; x31; x30; x33; x30; x6d; x37; x77;
              x00; x01; x02; x00; x00; xaa; x55; x0c])
    = Ok tt (State [] [] [] 14 false 0 0
               [wrote_page [[]];
                wrote_page
                  [[0; 0; 85; 85; 85; 85; 85; 85; 85; 85; 85; 85; 85; 85]]]).
Proof.
  apply (run_files 40 40 "page"
           [x1b; x2a; x62; x31; x30; x33; x30; x6d; x33; x77;
            x00; x01; x00; x0c;
            x1b; x2a; x62; x31; x30; x33; x30; x6d; x37; x77;
            x00; x01; x02; x00; x00; xaa; x55; x0c]
           [("page-1.pbm", [80; 52; 32; 48; 32; 49; 10]);
            ("page-2.pbm",
             [80; 52; 32; 49; 49; 50; 32; 49; 10; 0; 0;
              85; 85; 85; 85; 85; 85; 85; 85; 85; 85; 85; 85])]
           (State [] [] [] 14 false 0 0
              [wrote_page [[]];
               wrote_page
                 [[0; 0; 85; 85; 85; 85; 85; 85; 85; 85; 85; 85; 85; 85]]])).
  - vm_compute. reflexivity.
  - vm_compute. reflexivity.
Defined.

(** ** Termination *)

(** X19.  The decoder ends on every input.  Each loop of the program
    (the overflow octets, the skipped rest of a block, the characters of
    a page, the pages of a run) takes at least one octet per round, so
    one more round than the input has octets is enough for all of them:
    with that much fuel or more the run of [main] ends with a value or
    an exception, and the outcome does not depend on the fuel. *)
Theorem main_terminates (input : list byte) (fuel n : nat) :
  (S (length input) ≤ fuel)%nat → (S (length input) ≤ n)%nat →
  main_loop fuel n (start input) ≠ OutOfFuel
  ∧ main_loop fuel n (start input)
    = main_loop (S (length input)) (S (length input)) (start input).
Proof.
  intros Hf Hn.
  pose proof (main_loop_total (S (length input)) (S (length input))
                (start input)) as Ht.
  assert (main_loop (S (length input)) (S (length input)) (start input)
          ≠ OutOfFuel) as Hne.
  { destruct (main_loop (S (length input)) (S (length input)) (start input));
      [done..|].
    intros _. apply Ht; unfold fits; simpl; lia. }
  destruct (main_loop_below _ fuel _ n Hf Hn (start input)) as [E|E]; [done|].
  split; [by rewrite <- E|done].
Qed.

Lemma main_terminates_witness :
  main_loop 9 7 (start [x1b; x2a; x62; x31; x6d; x0c]) ≠ OutOfFuel
  ∧ main_loop 9 7 (start [x1b; x2a; x62; x31; x6d; x0c])
    = main_loop 7 7 (start [x1b; x2a; x62; x31; x6d; x0c]).
Proof.
  apply (main_terminates [x1b; x2a; x62; x31; x6d; x0c] 9 7); simpl; lia.
Defined.

(** ** Page boundaries *)

Lemma read_page_eq fuel st :
  read_page fuel st
  = match read_page_loop fuel fuel (page_start st) with
    | Ok _ s => Ok (bool_decide (page s ≠ [])) s
    | Throw e s => Throw e s
    | OutOfFuel => OutOfFuel
    end.
Proof.
  unfold read_page, modify, mbind at 1 2 3 4, M_bind at 1 2 3 4.
  change (set_line [] (set_page [] (set_format 0 (set_in_raster false st))))
    with (page_start st).
  unfold mbind, M_bind.
  destruct (read_page_loop fuel fuel (page_start st)) as [[] s| |]; [|done..].
  unfold gets, mret, M_ret. by destruct (page s).
Qed.

Lemma rounds_step fuel k st b rest :
  in_file st = b :: rest → b ≠ x0c →
  rounds fuel (S k) st
  = match read_page_char fuel (byte_val b) (set_in_file rest st) with
    | Ok _ st1 => rounds fuel k st1
    | _ => None
    end.
Proof.
  intros H Hb. cbn [rounds]. unfold getc. rewrite H.
  pose proof (byte_val_range b).
  destruct (Z.geb_spec (byte_val b) 0); [|lia].
  change 12 with (byte_val x0c). rewrite byte_val_eqb.
  by rewrite bool_decide_eq_false_2.
Qed.

Lemma rounds_stop fuel k st :
  in_file st = [] ∨ (∃ rest, in_file st = x0c :: rest) →
  rounds fuel (S k) st = None.
Proof.
  intros [H|[rest H]]; cbn [rounds]; unfold getc; by rewrite H.
Qed.

(** Rounds that go through are rounds of the loop. *)
Lemma rounds_loop fuel k : ∀ st s n,
  rounds fuel k st = Some s →
  read_page_loop fuel (k + n) st = read_page_loop fuel n s.
Proof.
  induction k as [|k IH]; intros st s n H.
  - by injection H as <-.
  - destruct (in_file st) as [|b rest] eqn:Hin.
    { rewrite rounds_stop in H by auto. done. }
    destruct (decide (b = x0c)) as [->|Hb].
    { rewrite rounds_stop in H by eauto. done. }
    rewrite (rounds_step _ _ _ _ _ Hin Hb) in H.
    change (S k + n)%nat with (S (k + n)).
    rewrite (read_page_loop_step _ _ _ _ _ Hin Hb).
    unfold mbind, M_bind.
    destruct (read_page_char fuel (byte_val b) (set_in_file rest st))
      as [[] s1| |]; [|done..].
    by apply IH.
Qed.

(** The loop returns only at the end of the stream or at a form-feed it
    reads itself. *)
Lemma loop_rounds fuel n : ∀ st st',
  read_page_loop fuel n st = Ok tt st' →
  ∃ k s, (k < n)%nat ∧ rounds fuel k st = Some s
    ∧ (in_file s = [] ∧ st' = s
       ∨ ∃ rest, in_file s = x0c :: rest ∧ st' = set_in_file rest s).
Proof.
  induction n as [|n IH]; intros st st' H; [done|].
  destruct (in_file st) as [|b rest] eqn:Hin.
  { rewrite read_page_loop_eof in H by done. injection H as <-.
    exists 0%nat, st. split_and!; [lia|done|auto]. }
  destruct (decide (b = x0c)) as [->|Hb].
  { rewrite (read_page_loop_ff _ _ _ _ Hin) in H. injection H as <-.
    exists 0%nat, st. split_and!; [lia|done|eauto]. }
  rewrite (read_page_loop_step _ _ _ _ _ Hin Hb) in H.
  apply bind_Ok in H as ([] & s1 & Hch & H).
  destruct (IH _ _ H) as (k & s & Hk & Hr & Hend).
  exists (S k), s. split_and!; [lia| |done].
  by rewrite (rounds_step _ _ _ _ _ Hin Hb), Hch.
Qed.

Lemma read_page_at fuel k st s :
  (k < fuel)%nat → rounds fuel k (page_start st) = Some s →
  (in_file s = [] → read_page fuel st = Ok (bool_decide (page s ≠ [])) s)
  ∧ (∀ rest, in_file s = x0c :: rest →
       read_page fuel st
       = Ok (bool_decide (page s ≠ [])) (set_in_file rest s)).
Proof.
  intros Hk Hr. rewrite read_page_eq.
  assert (read_page_loop fuel fuel (page_start st)
          = read_page_loop fuel (S (fuel - S k)) s) as ->.
  { rewrite <- (rounds_loop _ _ _ _ (S (fuel - S k)) Hr). f_equal. lia. }
  split.
  - intros Hin. by rewrite read_page_loop_eof.
  - intros rest Hin. by rewrite (read_page_loop_ff _ _ _ _ Hin).
Qed.

(** C3, as the code has it.  [read_page] runs the rounds of its loop up
    to the first form-feed the loop itself reads, or to the end of the
    stream, and reports whether the page collected up to there has a line.
    It returns normally in exactly these two cases, in raster mode or not,
    with the form-feed taken and what follows unread.  So it reports no
    page at the end of the stream, and also at a form-feed reached with no
    line collected, whatever follows it; the driver loop, called in any
    state, stops at such a form-feed with the rest of the stream unread
    and no page written. *)
Theorem read_page_stops (fuel : nat) (st : state) :
  (∀ b st',
     read_page fuel st = Ok b st' ↔
     ∃ k s, (k < fuel)%nat ∧ rounds fuel k (page_start st) = Some s
       ∧ b = bool_decide (page s ≠ [])
       ∧ (in_file s = [] ∧ st' = s
          ∨ ∃ rest, in_file s = x0c :: rest ∧ st' = set_in_file rest s))
  ∧ (∀ k s rest n,
       (k < fuel)%nat → rounds fuel k (page_start st) = Some s →
       in_file s = x0c :: rest → page s = [] →
       main_loop fuel (S n) st = Ok tt (set_in_file rest s)
       ∧ written (set_in_file rest s) = written st).
Proof.
  split.
  - intros b st'. split.
    + rewrite read_page_eq. intros H.
      destruct (read_page_loop fuel fuel (page_start st)) as [[] s1| |] eqn:Hl;
        [|done..].
      injection H as <- <-.
      destruct (loop_rounds _ _ _ _ Hl) as (k & s & Hk & Hr & Hend).
      exists k, s. split_and!; [done..| |done].
      by destruct Hend as [[_ ->]|(rest & _ & ->)].
    + intros (k & s & Hk & Hr & -> & Hend).
      destruct (read_page_at _ _ _ _ Hk Hr) as [Heof Hff].
      destruct Hend as [[Hin ->]|(rest & Hin & ->)]; [by apply Heof|by apply Hff].
  - intros k s rest n Hk Hr Hin Hpg.
    destruct (read_page_at _ _ _ _ Hk Hr) as [_ Hff].
    specialize (Hff _ Hin). rewrite Hpg in Hff.
    pose proof (read_page_written fuel st) as Hw. rewrite Hff in Hw.
    split; [|exact Hw].
    cbn [main_loop]. by rewrite (bind_eq _ _ _ _ _ Hff).
Qed.

(** A form-feed met in raster mode, after ESC [*] [b]: the page is empty,
    the driver stops and the octet behind the form-feed is never read. *)
Lemma read_page_stops_witness :
  main_loop 6 1 (start [x1b; x2a; x62; x0c; x41])
  = Ok tt (State [x41] [] [] 0 true 0 0 [])
  ∧ written (State [x41] [] [] 0 true 0 0 []) = [].
Proof.
  apply (proj2 (read_page_stops 6 (start [x1b; x2a; x62; x0c; x41]))
           1%nat (State [x0c; x41] [] [] 0 true 0 0 []) [x41] 0%nat).
  - lia.
  - vm_compute. reflexivity.
  - reflexivity.
  - reflexivity.
Defined.
